(** * ApiLevelsUtils: release-library to framework-class resolver

    A shallow embedding of [service/api-levels/ApiLevelsUtils.cpp] and the
    properties its design document states about it.

    Interned pointers ([DexType*], [DexString*], [DexProto*]) are compared by
    address in the C++ code; interning makes address equality coincide with
    equality of the interned value, so they are modelled by the values
    themselves (a type by its descriptor string).  [std::unordered_map] is a
    [gmap]; wherever the code iterates over one, the result is shown not to
    depend on the order of enumeration.  The catalogue that
    [get_framework_classes] reads from its file is an input here. *)

From Stdlib Require Import ZArith Ascii String.
From stdpp Require Import base option list strings gmap fin_maps fin_sets.

Local Open Scope string_scope.
Local Open Scope list_scope.
Local Open Scope nat_scope.

(** ** Data model *)

Abbreviation DexType := string.
Abbreviation DexString := string.

Record DexProto := mkProto {
  get_rtype : DexType;
  get_args : list DexType
}.

Record DexMethodRef := mkMethodRef {
  mref_class : DexType;
  mref_name : DexString;
  mref_proto : DexProto
}.

Record DexFieldRef := mkFieldRef {
  fref_class : DexType;
  fref_name : DexString;
  fref_type : DexType
}.

(** A method or field definition: its reference plus the one access flag
    the resolver looks at. *)
Record DexMethod := mkMethod {
  meth_ref : DexMethodRef;
  meth_public : bool
}.

Record DexField := mkField {
  field_ref : DexFieldRef;
  field_public : bool
}.

Record DexClass := mkClass {
  get_type : DexType;
  get_deobfuscated_name : string;
  get_super_class : option DexType;
  is_external : bool;
  is_interface : bool;
  get_dmethods : list DexMethod;
  get_vmethods : list DexMethod;
  get_sfields : list DexField;
  get_ifields : list DexField
}.

(** [api::FrameworkAPI]; the two unordered sets are given by an enumeration
    of their elements ([find_method] and [find_field] only ask whether some
    element matches). *)
Record FrameworkAPI := mkAPI {
  cls : DexType;
  mrefs : list DexMethodRef;
  frefs : list DexFieldRef
}.

(** [TypeSystem]: the two hierarchy queries the resolver uses. *)
Record TypeSystem := mkTypeSystem {
  get_implemented_interfaces : DexType → gset string;
  get_all_super_interfaces : DexType → gset string
}.

#[global] Instance DexProto_eq_dec : EqDecision DexProto.
Proof. solve_decision. Defined.
#[global] Instance DexMethodRef_eq_dec : EqDecision DexMethodRef.
Proof. solve_decision. Defined.
#[global] Instance DexFieldRef_eq_dec : EqDecision DexFieldRef.
Proof. solve_decision. Defined.

Definition is_public_method (m : DexMethod) : bool := meth_public m.
Definition is_public_field (f : DexField) : bool := field_public f.

(** [known_types::java_lang_Object()] *)
Definition java_lang_Object : DexType := "Ljava/lang/Object;".

(** Outcome of a routine that can hit an [always_assert]; [OutOfFuel] is
    only produced by the bounded unrolling of the [while (true)] loop. *)
Inductive outcome (A : Type) : Type :=
  | Done (a : A)
  | Abort
  | OutOfFuel.
Arguments Done {A} a.
Arguments Abort {A}.
Arguments OutOfFuel {A}.

(** ** Simple names *)

(** [std::string::rfind] for a single character. *)
Fixpoint rfind (c : ascii) (s : string) : option nat :=
  match s with
  | EmptyString => None
  | String a rest =>
      match rfind c rest with
      | Some i => Some (S i)
      | None => if Ascii.eqb a c then Some 0 else None
      end
  end.

Definition size_t_wrap (z : Z) : Z := (z mod 2 ^ 64)%Z.

(** [std::string::substr (pos, count)] for [pos <= size]; [count] is an
    unsigned 64-bit quantity and is clipped to what is left of the string. *)
Definition substr (s : string) (pos : nat) (count : Z) : string :=
  let avail := (Z.of_nat (String.length s) - Z.of_nat pos)%Z in
  substring pos (Z.to_nat (Z.min count avail)) s.

Section Registry.

(** [type_class]: the global type-to-class table. *)
Variable type_class : DexType → option DexClass.

Definition full_name_of (type : DexType) : string :=
  let full_name :=
    match type_class type with
    | Some c => get_deobfuscated_name c
    | None => ""
    end in
  if decide (full_name = "") then type else full_name.

(** [Lcom/facebook/something/ClassName$Foo;] becomes [ClassName$Foo];
    [None] is the failed [always_assert] on a name without a slash. *)
Definition get_simple_deobfuscated_name (type : DexType) : option string :=
  let full_name := full_name_of type in
  match rfind "/"%char full_name with
  | None => None
  | Some simple_name_pos =>
      Some (substr full_name (simple_name_pos + 1)
              (size_t_wrap (Z.of_nat (String.length full_name)
                            - Z.of_nat simple_name_pos - 2)))
  end.

End Registry.

(** ** Member check *)

(** Modelled from the spec: [type_reference::get_new_proto] lives outside
    this file.  It substitutes every parameter and return type through the
    release-to-framework index; a type absent from the index passes through
    unchanged. *)
Definition substitute_type (release_to_framework : gmap DexType DexType)
    (type : DexType) : DexType :=
  match release_to_framework !! type with
  | Some new_type => new_type
  | None => type
  end.

Definition get_new_proto (proto : DexProto)
    (release_to_framework : gmap DexType DexType) : DexProto :=
  {| get_rtype := substitute_type release_to_framework (get_rtype proto);
     get_args := substitute_type release_to_framework <$> get_args proto |}.

Fixpoint find_method (meth_name : DexString) (meth_proto : DexProto)
    (mrefs : list DexMethodRef) : bool :=
  match mrefs with
  | [] => false
  | mref :: rest =>
      if bool_decide (mref_name mref = meth_name)
         && bool_decide (mref_proto mref = meth_proto)
      then true
      else find_method meth_name meth_proto rest
  end.

Fixpoint check_methods_loop (methods : list DexMethod)
    (framework_api : FrameworkAPI)
    (release_to_framework : gmap DexType DexType) : bool :=
  match methods with
  | [] => true
  | meth :: rest =>
      if negb (is_public_method meth) then
        check_methods_loop rest framework_api release_to_framework
      else
        let new_proto :=
          get_new_proto (mref_proto (meth_ref meth)) release_to_framework in
        if negb (find_method (mref_name (meth_ref meth)) new_proto
                   (mrefs framework_api))
        then false
        else check_methods_loop rest framework_api release_to_framework
  end.

Definition check_methods (methods : list DexMethod)
    (framework_api : FrameworkAPI)
    (release_to_framework : gmap DexType DexType) : bool :=
  if decide (length methods = 0) then true
  else check_methods_loop methods framework_api release_to_framework.

Fixpoint find_field (field_name : DexString) (field_type : DexType)
    (frefs : list DexFieldRef) : bool :=
  match frefs with
  | [] => false
  | fref :: rest =>
      if bool_decide (fref_name fref = field_name)
         && bool_decide (fref_type fref = field_type)
      then true
      else find_field field_name field_type rest
  end.

Fixpoint check_fields_loop (fields : list DexField)
    (framework_api : FrameworkAPI)
    (release_to_framework : gmap DexType DexType) : bool :=
  match fields with
  | [] => true
  | field :: rest =>
      if negb (is_public_field field) then
        check_fields_loop rest framework_api release_to_framework
      else
        let field_type := fref_type (field_ref field) in
        let new_field_type :=
          match release_to_framework !! field_type with
          | Some t => t
          | None => field_type
          end in
        if negb (find_field (fref_name (field_ref field)) new_field_type
                   (frefs framework_api))
        then false
        else check_fields_loop rest framework_api release_to_framework
  end.

Definition check_fields (fields : list DexField)
    (framework_api : FrameworkAPI)
    (release_to_framework : gmap DexType DexType) : bool :=
  if decide (length fields = 0) then true
  else check_fields_loop fields framework_api release_to_framework.

(** Checks that all public members of the release class exist in the
    compatibility class. *)
Definition check_members (c : DexClass) (framework_api : FrameworkAPI)
    (release_to_framework : gmap DexType DexType) : bool :=
  if negb (check_methods (get_dmethods c) framework_api release_to_framework)
  then false
  else if negb (check_methods (get_vmethods c) framework_api
                  release_to_framework)
  then false
  else if negb (check_fields (get_sfields c) framework_api
                  release_to_framework)
  then false
  else if negb (check_fields (get_ifields c) framework_api
                  release_to_framework)
  then false
  else true.

(** *** The member check as the design document words it *)

Definition method_has_counterpart (framework_api : FrameworkAPI)
    (release_to_framework : gmap DexType DexType) (meth : DexMethod) : Prop :=
  ∃ mref, mref ∈ mrefs framework_api
    ∧ mref_name mref = mref_name (meth_ref meth)
    ∧ get_rtype (mref_proto mref)
      = substitute_type release_to_framework
          (get_rtype (mref_proto (meth_ref meth)))
    ∧ get_args (mref_proto mref)
      = substitute_type release_to_framework
          <$> get_args (mref_proto (meth_ref meth)).

Definition field_has_counterpart (framework_api : FrameworkAPI)
    (release_to_framework : gmap DexType DexType) (field : DexField) : Prop :=
  ∃ fref, fref ∈ frefs framework_api
    ∧ fref_name fref = fref_name (field_ref field)
    ∧ fref_type fref
      = substitute_type release_to_framework (fref_type (field_ref field)).

Definition members_compatible (c : DexClass) (framework_api : FrameworkAPI)
    (release_to_framework : gmap DexType DexType) : Prop :=
  (∀ meth, meth ∈ get_dmethods c ++ get_vmethods c →
     meth_public meth = true →
     method_has_counterpart framework_api release_to_framework meth)
  ∧ (∀ field, field ∈ get_sfields c ++ get_ifields c →
       field_public field = true →
       field_has_counterpart framework_api release_to_framework field).

(** The class with its non-public members dropped. *)
Definition public_surface (c : DexClass) : DexClass :=
  {| get_type := get_type c;
     get_deobfuscated_name := get_deobfuscated_name c;
     get_super_class := get_super_class c;
     is_external := is_external c;
     is_interface := is_interface c;
     get_dmethods := filter (λ m, meth_public m = true) (get_dmethods c);
     get_vmethods := filter (λ m, meth_public m = true) (get_vmethods c);
     get_sfields := filter (λ f, field_public f = true) (get_sfields c);
     get_ifields := filter (λ f, field_public f = true) (get_ifields c) |}.

(** ** Hierarchy check *)

Section Resolver.

Variable type_class : DexType → option DexClass.
Variable type_system : TypeSystem.

Fixpoint check_if_present_loop (types : list DexType)
    (release_to_framework : gmap DexType DexType) : bool :=
  match types with
  | [] => true
  | type :: rest =>
      match type_class type with
      | None => check_if_present_loop rest release_to_framework
      | Some c =>
          if is_external c then
            check_if_present_loop rest release_to_framework
          else if decide (release_to_framework !! type = None) then false
          else check_if_present_loop rest release_to_framework
      end
  end.

(** [TypeSet] is an ordered set; the loop walks its elements. *)
Definition check_if_present (types : gset string)
    (release_to_framework : gmap DexType DexType) : bool :=
  check_if_present_loop (elements types) release_to_framework.

Definition check_hierarchy (c : DexClass) (framework_api : FrameworkAPI)
    (release_to_framework : gmap DexType DexType) : bool :=
  let type := get_type c in
  if negb (is_interface c) then
    let implemented_intfs := get_implemented_interfaces type_system type in
    if negb (check_if_present implemented_intfs release_to_framework)
    then false
    else
      match get_super_class c with
      | Some super_cls =>
          if bool_decide (super_cls ≠ java_lang_Object)
             && bool_decide (release_to_framework !! super_cls = None)
          then false else true
      | None =>
          (* a null superclass is neither Object nor a key of the index *)
          false
      end
  else
    let super_intfs := get_all_super_interfaces type_system type in
    if negb (check_if_present super_intfs release_to_framework)
    then false
    else true.

(** *** The hierarchy check as the design document words it *)

(** An external type in the sense of the document's glossary, "a type not
    defined within the analysed program": it has no class definition at
    all, or its definition is marked external. *)
Definition external_type (type : DexType) : Prop :=
  match type_class type with
  | None => True
  | Some c => is_external c = true
  end.

Definition external_or_key (release_to_framework : gmap DexType DexType)
    (type : DexType) : Prop :=
  external_type type ∨ is_Some (release_to_framework !! type).

Definition root_or_key (release_to_framework : gmap DexType DexType)
    (super_cls : option DexType) : Prop :=
  ∃ s, super_cls = Some s
       ∧ (s = java_lang_Object ∨ is_Some (release_to_framework !! s)).

Definition hierarchy_compatible (c : DexClass)
    (release_to_framework : gmap DexType DexType) : Prop :=
  if is_interface c then
    ∀ t, t ∈ get_all_super_interfaces type_system (get_type c) →
         external_or_key release_to_framework t
  else
    (∀ t, t ∈ get_implemented_interfaces type_system (get_type c) →
          external_or_key release_to_framework t)
    ∧ root_or_key release_to_framework (get_super_class c).

(** ** The resolver *)

(** The index from release class to framework class, recomputed from the
    current mapping at the start of every pass. *)
Definition release_to_framework_of (m : gmap DexType FrameworkAPI)
    : gmap DexType DexType :=
  cls <$> m.

(** One scan over the pairs of the mapping, collecting those to remove;
    [None] is the failed [always_assert(cls)]. *)
Fixpoint collect_to_remove (pairs : list (DexType * FrameworkAPI))
    (release_to_framework : gmap DexType DexType)
    (to_remove : gset string) : option (gset string) :=
  match pairs with
  | [] => Some to_remove
  | (type, api) :: rest =>
      match type_class type with
      | None => None
      | Some c =>
          if negb (check_members c api release_to_framework) then
            collect_to_remove rest release_to_framework
              ({[type]} ∪ to_remove)
          else if negb (check_hierarchy c api release_to_framework) then
            collect_to_remove rest release_to_framework
              ({[type]} ∪ to_remove)
          else collect_to_remove rest release_to_framework to_remove
      end
  end.

(** Whether one pair survives a scan against the given index. *)
Definition pair_passes (release_to_framework : gmap DexType DexType)
    (type : DexType) (api : FrameworkAPI) : bool :=
  match type_class type with
  | Some c =>
      check_members c api release_to_framework
      && check_hierarchy c api release_to_framework
  | None => false
  end.

(** A fixed point: no pair of the mapping fails validation against the
    index derived from the mapping itself. *)
Definition converged (m : gmap DexType FrameworkAPI) : Prop :=
  ∀ type api, m !! type = Some api →
    pair_passes (release_to_framework_of m) type api = true.

Definition erase_all {V} (keys : list string) (m : gmap string V)
    : gmap string V :=
  foldl (λ acc k, delete k acc) m keys.

(** The [while (true)] loop, unrolled at most [fuel] times.  Besides the
    final mapping it reports how many times the loop body ran. *)
Fixpoint resolver_loop (fuel : nat) (m : gmap DexType FrameworkAPI)
    : outcome (gmap DexType FrameworkAPI * nat) :=
  match fuel with
  | 0 => OutOfFuel
  | S fuel' =>
      let release_to_framework := release_to_framework_of m in
      match collect_to_remove (map_to_list m) release_to_framework ∅ with
      | None => Abort
      | Some to_remove =>
          if decide (to_remove = ∅) then Done (m, 1)
          else
            match resolver_loop fuel' (erase_all (elements to_remove) m) with
            | Done (m', iterations) => Done (m', S iterations)
            | Abort => Abort
            | OutOfFuel => OutOfFuel
            end
      end
  end.

Definition check_and_update_release_to_framework (fuel : nat)
    (m : gmap DexType FrameworkAPI) : outcome (gmap DexType FrameworkAPI) :=
  match resolver_loop fuel m with
  | Done (m', _) => Done m'
  | Abort => Abort
  | OutOfFuel => OutOfFuel
  end.

(** ** Candidate selection *)

(** The first loop of [get_simple_cls_name_to_accepted_types] over an
    enumeration of the catalogue: [emplace] keeps the first claimant of a
    name and every later claimant puts the name on the filter list. *)
Fixpoint collect_simple_names (pairs : list (DexType * FrameworkAPI))
    (filter : list string) (simple_cls_name_to_type : gmap string DexType)
    : option (list string * gmap string DexType) :=
  match pairs with
  | [] => Some (filter, simple_cls_name_to_type)
  | (type, _) :: rest =>
      match get_simple_deobfuscated_name type_class type with
      | None => None
      | Some simple_name =>
          match simple_cls_name_to_type !! simple_name with
          | None =>
              collect_simple_names rest filter
                (<[simple_name := type]> simple_cls_name_to_type)
          | Some _ =>
              collect_simple_names rest (filter ++ [simple_name])
                simple_cls_name_to_type
          end
      end
  end.

Definition simple_cls_name_to_accepted_types_of
    (pairs : list (DexType * FrameworkAPI)) : option (gmap string DexType) :=
  match collect_simple_names pairs [] ∅ with
  | None => None
  | Some (filter, simple_cls_name_to_type) =>
      Some (erase_all filter simple_cls_name_to_type)
  end.

Definition get_simple_cls_name_to_accepted_types
    (framework_cls_to_api : gmap DexType FrameworkAPI)
    : option (gmap string DexType) :=
  simple_cls_name_to_accepted_types_of (map_to_list framework_cls_to_api).

(** What holds of the filter list and the partial index once the classes
    [seen] have been processed. *)
Definition index_invariant (seen : list (DexType * FrameworkAPI))
    (filter : list string) (idx : gmap string DexType) : Prop :=
  let simple := get_simple_deobfuscated_name type_class in
  (∀ s t, idx !! s = Some t → t ∈ seen.*1 ∧ simple t = Some s)
  ∧ (∀ t s, t ∈ seen.*1 → simple t = Some s →
       idx !! s = Some t ∨ s ∈ filter)
  ∧ (∀ s, s ∈ filter →
       ∃ t1 t2, t1 ≠ t2 ∧ t1 ∈ seen.*1 ∧ t2 ∈ seen.*1
                ∧ simple t1 = Some s ∧ simple t2 = Some s).

(** What [std::move] leaves behind in the catalogue entry: the raw class
    pointer is copied, the two member sets are emptied. *)
Definition moved_from (api : FrameworkAPI) : FrameworkAPI :=
  {| cls := cls api; mrefs := []; frefs := [] |}.

(** The loop over [m_scope] in [load_types_to_framework_api].  The state is
    the catalogue (entries are moved out of it) and the candidate mapping;
    [simple_names_releases] is declared and tested but never written.
    [None] is a failed [always_assert]. *)
Fixpoint load_scope (scope : list DexClass)
    (simple_cls_name_to_type : gmap string DexType)
    (simple_names_releases : gset string)
    (framework_cls_to_api m : gmap DexType FrameworkAPI)
    : option (gmap DexType FrameworkAPI * gmap DexType FrameworkAPI) :=
  match scope with
  | [] => Some (framework_cls_to_api, m)
  | c :: rest =>
      if is_external c then
        load_scope rest simple_cls_name_to_type simple_names_releases
          framework_cls_to_api m
      else if String.prefix "Landroidx" (get_deobfuscated_name c) then
        match get_simple_deobfuscated_name type_class (get_type c) with
        | None => None
        | Some simple_name =>
            match simple_cls_name_to_type !! simple_name with
            | None =>
                load_scope rest simple_cls_name_to_type simple_names_releases
                  framework_cls_to_api m
            | Some framework_cls =>
                if decide (simple_name ∈ simple_names_releases) then None
                else
                  match framework_cls_to_api !! framework_cls with
                  | Some api =>
                      load_scope rest simple_cls_name_to_type
                        simple_names_releases
                        (<[framework_cls := moved_from api]>
                           framework_cls_to_api)
                        (<[get_type c := api]> m)
                  | None =>
                      (* not reached: every value of the index is a key of
                         the catalogue, see [load_scope_catalogue_hit] *)
                      None
                  end
            end
        end
      else
        load_scope rest simple_cls_name_to_type simple_names_releases
          framework_cls_to_api m
  end.

(** [load_types_to_framework_api] from the point where its first
    statement, the call to [get_framework_classes], has returned the
    catalogue; the call itself and its failures are in
    [load_types_to_framework_api_from] below. *)
Definition load_types_to_framework_api (fuel : nat) (m_scope : list DexClass)
    (framework_cls_to_api m : gmap DexType FrameworkAPI)
    : outcome (gmap DexType FrameworkAPI) :=
  match get_simple_cls_name_to_accepted_types framework_cls_to_api with
  | None => Abort
  | Some simple_cls_name_to_type =>
      match load_scope m_scope simple_cls_name_to_type ∅
              framework_cls_to_api m with
      | None => Abort
      | Some (_, m') => check_and_update_release_to_framework fuel m'
      end
  end.


Definition filter_types (fuel : nat) (types : gset string)
    (m : gmap DexType FrameworkAPI) : outcome (gmap DexType FrameworkAPI) :=
  check_and_update_release_to_framework fuel (erase_all (elements types) m).

End Resolver.

(** A type system whose two queries additionally report the types [extra]
    for the class [type]. *)
Definition with_extra_hierarchy_types (type_system : TypeSystem)
    (type : DexType) (extra : gset string) : TypeSystem :=
  {| get_implemented_interfaces := λ t,
       if decide (t = type)
       then get_implemented_interfaces type_system t ∪ extra
       else get_implemented_interfaces type_system t;
     get_all_super_interfaces := λ t,
       if decide (t = type)
       then get_all_super_interfaces type_system t ∪ extra
       else get_all_super_interfaces type_system t |}.

(** ** A small program to run the definitions on *)

Module Example.

(** The class table of a list of classes. *)
Definition class_table (classes : list DexClass) (type : DexType)
    : option DexClass :=
  List.find (λ c, String.eqb (get_type c) type) classes.

Definition Rel_Base : DexType := "Landroidx/core/Base;".
Definition Rel_Child : DexType := "Landroidx/core/Child;".
Definition Rel_Twin : DexType := "Landroidx/legacy/Base;".
Definition Fw_Base : DexType := "Landroid/app/Base;".
Definition Fw_Child : DexType := "Landroid/app/Child;".
Definition Fw_Twin : DexType := "Landroid/widget/Base;".
Definition Ghost : DexType := "Landroidx/core/Ghost;".

Definition void_proto : DexProto := {| get_rtype := "V"; get_args := [] |}.

(** [Base] has a public [draw()] and a non-public [hidden()]. *)
Definition base_cls : DexClass :=
  {| get_type := Rel_Base;
     get_deobfuscated_name := Rel_Base;
     get_super_class := Some java_lang_Object;
     is_external := false;
     is_interface := false;
     get_dmethods := [];
     get_vmethods :=
       [ {| meth_ref := mkMethodRef Rel_Base "draw" void_proto;
            meth_public := true |};
         {| meth_ref := mkMethodRef Rel_Base "hidden" void_proto;
            meth_public := false |} ];
     get_sfields := [];
     get_ifields := [] |}.

(** [Child] extends [Base]; its one method and its one field mention
    [Base], so its member check goes through the substitution. *)
Definition child_cls : DexClass :=
  {| get_type := Rel_Child;
     get_deobfuscated_name := Rel_Child;
     get_super_class := Some Rel_Base;
     is_external := false;
     is_interface := false;
     get_dmethods := [];
     get_vmethods :=
       [ {| meth_ref :=
              mkMethodRef Rel_Child "attach"
                {| get_rtype := "V"; get_args := [Rel_Base] |};
            meth_public := true |} ];
     get_sfields := [];
     get_ifields :=
       [ {| field_ref := mkFieldRef Rel_Child "parent" Rel_Base;
            field_public := true |} ] |}.

(** A second internal release class with the simple name [Base]. *)
Definition twin_cls : DexClass :=
  {| get_type := Rel_Twin;
     get_deobfuscated_name := Rel_Twin;
     get_super_class := Some java_lang_Object;
     is_external := false;
     is_interface := false;
     get_dmethods := [];
     get_vmethods := [];
     get_sfields := [];
     get_ifields := [] |}.

Definition fw_base_api : FrameworkAPI :=
  {| cls := Fw_Base;
     mrefs := [mkMethodRef Fw_Base "draw" void_proto];
     frefs := [] |}.

Definition fw_child_api : FrameworkAPI :=
  {| cls := Fw_Child;
     mrefs := [mkMethodRef Fw_Child "attach"
                 {| get_rtype := "V"; get_args := [Fw_Base] |}];
     frefs := [mkFieldRef Fw_Child "parent" Fw_Base] |}.

Definition fw_twin_api : FrameworkAPI :=
  {| cls := Fw_Twin; mrefs := []; frefs := [] |}.

(** An internal interface. *)
Definition Rel_Helper : DexType := "Landroidx/core/Helper;".

Definition helper_cls : DexClass :=
  {| get_type := Rel_Helper;
     get_deobfuscated_name := Rel_Helper;
     get_super_class := Some java_lang_Object;
     is_external := false;
     is_interface := true;
     get_dmethods := [];
     get_vmethods := [];
     get_sfields := [];
     get_ifields := [] |}.

Definition scope : list DexClass := [base_cls; child_cls; helper_cls].
Definition twin_scope : list DexClass := [base_cls; twin_cls].

(** No class of the example implements or extends an interface. *)
Definition type_system : TypeSystem :=
  {| get_implemented_interfaces := λ _, ∅;
     get_all_super_interfaces := λ _, ∅ |}.

(** A hierarchy in which [Base] implements the given interfaces. *)
Definition base_implements (intfs : gset string) : TypeSystem :=
  {| get_implemented_interfaces := λ t,
       if String.eqb t Rel_Base then intfs else ∅;
     get_all_super_interfaces := λ _, ∅ |}.

Definition catalogue : gmap DexType FrameworkAPI :=
  <[Fw_Base := fw_base_api]> (<[Fw_Child := fw_child_api]> ∅).

(** A catalogue in which two framework classes are called [Base]. *)
Definition ambiguous_catalogue : gmap DexType FrameworkAPI :=
  <[Fw_Twin := fw_twin_api]> catalogue.

Definition mapping : gmap DexType FrameworkAPI :=
  <[Rel_Base := fw_base_api]> (<[Rel_Child := fw_child_api]> ∅).

Definition child_only : gmap DexType FrameworkAPI :=
  <[Rel_Child := fw_child_api]> ∅.

(** A descriptor that offers what [fw_base_api] offers and more, with
    [draw] declared by another class and listed twice. *)
Definition fw_base_api_rich : FrameworkAPI :=
  {| cls := Fw_Base;
     mrefs := [ mkMethodRef Fw_Twin "size" {| get_rtype := "I"; get_args := [] |};
                mkMethodRef Fw_Child "draw" void_proto;
                mkMethodRef Fw_Base "draw" void_proto ];
     frefs := [mkFieldRef Fw_Base "count" "I"] |}.

(** The index of [mapping] with one more, unrelated key. *)
Definition wider_index : gmap DexType DexType :=
  <[Ghost := Fw_Twin]> (release_to_framework_of mapping).

Definition helper_only : gmap DexType FrameworkAPI :=
  <[Rel_Helper := fw_twin_api]> ∅.

(** [Helper] paired with a descriptor it matches and [Base] paired with
    one that lacks its [draw()]. *)
Definition mixed_mapping : gmap DexType FrameworkAPI :=
  <[Rel_Base := fw_twin_api]> helper_only.

(** The catalogue after the scan moved both entries out of it. *)
Definition emptied_catalogue : gmap DexType FrameworkAPI :=
  <[Fw_Base := moved_from fw_base_api]>
    (<[Fw_Child := moved_from fw_child_api]> ∅).

(** [mapping] with the independent pair for [Helper] added. *)
Definition full_mapping : gmap DexType FrameworkAPI :=
  <[Rel_Helper := fw_twin_api]> mapping.

End Example.

(** ** Notions used to state further properties *)

(** What the member check reads of a descriptor: names with signatures
    and names with types. *)
Definition method_signatures (api : FrameworkAPI)
    : list (DexString * DexProto) :=
  (λ mref, (mref_name mref, mref_proto mref)) <$> mrefs api.

Definition field_signatures (api : FrameworkAPI)
    : list (DexString * DexType) :=
  (λ fref, (fref_name fref, fref_type fref)) <$> frefs api.

(** The types that the public members of a class mention. *)
Definition method_types (meth : DexMethod) : list DexType :=
  get_rtype (mref_proto (meth_ref meth))
  :: get_args (mref_proto (meth_ref meth)).

Definition public_member_types (c : DexClass) : list DexType :=
  (filter (λ m, meth_public m = true) (get_dmethods c ++ get_vmethods c)
     ≫= method_types)
  ++ ((λ f, fref_type (field_ref f))
        <$> filter (λ f, field_public f = true)
              (get_sfields c ++ get_ifields c)).

(** The [n]-th superclass of a type, walking up through the concrete
    classes of the class table and stopping below the root object type. *)
Fixpoint nth_superclass (type_class : DexType → option DexClass)
    (n : nat) (type : DexType) : option DexType :=
  match n with
  | 0 => Some type
  | S n' =>
      match type_class type with
      | Some c =>
          if is_interface c then None
          else
            match get_super_class c with
            | Some super_cls =>
                if decide (super_cls = java_lang_Object) then None
                else nth_superclass type_class n' super_cls
            | None => None
            end
      | None => None
      end
  end.

(** An internal class that the naming convention marks as a release
    library class. *)
Definition is_release_class (c : DexClass) : bool :=
  negb (is_external c) && String.prefix "Landroidx" (get_deobfuscated_name c).

(** The simple names of the release classes of a scope, in scan order;
    a class whose name has no simple name contributes nothing. *)
Definition release_simple_names (type_class : DexType → option DexClass)
    (scope : list DexClass) : list string :=
  omap (λ c, if is_release_class c
             then get_simple_deobfuscated_name type_class (get_type c)
             else None) scope.

(** * Properties *)

Example simple_name_example :
  get_simple_deobfuscated_name (λ _, None) "Lcom/facebook/something/ClassName$Foo;"
  = Some "ClassName$Foo".
Proof. reflexivity. Qed.

Example simple_name_trailing_slash :
  get_simple_deobfuscated_name (λ _, None) "Lcom/" = Some "".
Proof. reflexivity. Qed.

Example simple_name_no_slash :
  get_simple_deobfuscated_name (λ _, None) "I" = None.
Proof. reflexivity. Qed.


(** ** Member check: characterisation *)

Lemma find_method_true meth_name meth_proto l :
  find_method meth_name meth_proto l = true
  ↔ ∃ mref, mref ∈ l ∧ mref_name mref = meth_name
            ∧ mref_proto mref = meth_proto.
Proof.
  induction l as [|r l IH]; simpl.
  - split; [done | intros (? & []%elem_of_nil & _)].
  - destruct (bool_decide (mref_name r = meth_name)
              && bool_decide (mref_proto r = meth_proto)) eqn:E.
    + apply andb_true_iff in E as [?%bool_decide_eq_true ?%bool_decide_eq_true].
      split; [|done]. intros _. exists r. by rewrite elem_of_cons; auto.
    + rewrite IH. apply andb_false_iff in E.
      split.
      * intros (x & ? & ? & ?). exists x. rewrite elem_of_cons. auto.
      * intros (x & [->|?]%elem_of_cons & Hn & Hp); [|by exists x].
        destruct E as [E|E]; apply bool_decide_eq_false in E; contradiction.
Qed.

Lemma find_field_true field_name field_type l :
  find_field field_name field_type l = true
  ↔ ∃ fref, fref ∈ l ∧ fref_name fref = field_name
            ∧ fref_type fref = field_type.
Proof.
  induction l as [|r l IH]; simpl.
  - split; [done | intros (? & []%elem_of_nil & _)].
  - destruct (bool_decide (fref_name r = field_name)
              && bool_decide (fref_type r = field_type)) eqn:E.
    + apply andb_true_iff in E as [?%bool_decide_eq_true ?%bool_decide_eq_true].
      split; [|done]. intros _. exists r. by rewrite elem_of_cons; auto.
    + rewrite IH. apply andb_false_iff in E.
      split.
      * intros (x & ? & ? & ?). exists x. rewrite elem_of_cons. auto.
      * intros (x & [->|?]%elem_of_cons & Hn & Hp); [|by exists x].
        destruct E as [E|E]; apply bool_decide_eq_false in E; contradiction.
Qed.

Lemma proto_eq_split (p q : DexProto) :
  p = q ↔ get_rtype p = get_rtype q ∧ get_args p = get_args q.
Proof.
  split; [by intros -> |]. destruct p, q; simpl. by intros [-> ->].
Qed.

Lemma method_counterpart_found api rtf meth :
  find_method (mref_name (meth_ref meth))
    (get_new_proto (mref_proto (meth_ref meth)) rtf) (mrefs api) = true
  ↔ method_has_counterpart api rtf meth.
Proof.
  rewrite find_method_true. unfold method_has_counterpart.
  split; intros (r & Hin & Hn & Hp); exists r; split_and!; try done.
  - by apply proto_eq_split in Hp as [? _].
  - by apply proto_eq_split in Hp as [_ ?].
  - apply proto_eq_split. simpl. tauto.
Qed.

Lemma field_counterpart_found api rtf field :
  find_field (fref_name (field_ref field))
    (substitute_type rtf (fref_type (field_ref field))) (frefs api) = true
  ↔ field_has_counterpart api rtf field.
Proof. by rewrite find_field_true. Qed.

Lemma check_methods_unfold methods api rtf :
  check_methods methods api rtf = check_methods_loop methods api rtf.
Proof. unfold check_methods. by destruct methods. Qed.

Lemma check_fields_unfold fields api rtf :
  check_fields fields api rtf = check_fields_loop fields api rtf.
Proof. unfold check_fields. by destruct fields. Qed.

Lemma check_methods_true methods api rtf :
  check_methods methods api rtf = true
  ↔ ∀ meth, meth ∈ methods → meth_public meth = true →
      method_has_counterpart api rtf meth.
Proof.
  rewrite check_methods_unfold.
  induction methods as [|m l IH]; simpl.
  - split; [|done]. by intros _ ? ?%elem_of_nil.
  - unfold is_public_method. destruct (meth_public m) eqn:Hpub; simpl.
    + destruct (find_method _ _ _) eqn:Hf; simpl.
      * rewrite IH. apply method_counterpart_found in Hf.
        split; [|by intros H x ?; apply H; rewrite elem_of_cons; right].
        intros H x [->|?]%elem_of_cons ?; auto.
      * split; [done|]. intros H.
        assert (method_has_counterpart api rtf m) as Hc
          by (apply H; [rewrite elem_of_cons; by left | done]).
        apply method_counterpart_found in Hc. congruence.
    + rewrite IH.
      split; [|by intros H x ?; apply H; rewrite elem_of_cons; right].
      intros H x [->|?]%elem_of_cons ?; [congruence | auto].
Qed.

Lemma check_fields_true fields api rtf :
  check_fields fields api rtf = true
  ↔ ∀ field, field ∈ fields → field_public field = true →
      field_has_counterpart api rtf field.
Proof.
  rewrite check_fields_unfold.
  induction fields as [|f l IH]; simpl.
  - split; [|done]. by intros _ ? ?%elem_of_nil.
  - unfold is_public_field. destruct (field_public f) eqn:Hpub; simpl.
    + change (match rtf !! fref_type (field_ref f) with
              | Some t => t | None => fref_type (field_ref f) end)
        with (substitute_type rtf (fref_type (field_ref f))).
      destruct (find_field _ _ _) eqn:Hf; simpl.
      * rewrite IH. apply field_counterpart_found in Hf.
        split; [|by intros H x ?; apply H; rewrite elem_of_cons; right].
        intros H x [->|?]%elem_of_cons ?; auto.
      * split; [done|]. intros H.
        assert (field_has_counterpart api rtf f) as Hc
          by (apply H; [rewrite elem_of_cons; by left | done]).
        apply field_counterpart_found in Hc. congruence.
    + rewrite IH.
      split; [|by intros H x ?; apply H; rewrite elem_of_cons; right].
      intros H x [->|?]%elem_of_cons ?; [congruence | auto].
Qed.

Lemma check_members_split c api rtf :
  check_members c api rtf
  = check_methods (get_dmethods c) api rtf
    && check_methods (get_vmethods c) api rtf
    && check_fields (get_sfields c) api rtf
    && check_fields (get_ifields c) api rtf.
Proof.
  unfold check_members.
  by repeat match goal with |- context [negb ?b] => destruct b; simpl end.
Qed.

Lemma check_members_true c api rtf :
  check_members c api rtf = true ↔ members_compatible c api rtf.
Proof.
  rewrite check_members_split, !andb_true_iff, !check_methods_true,
    !check_fields_true.
  unfold members_compatible.
  split.
  - intros [[[Hd Hv] Hs] Hi]. split.
    + intros x [?|?]%elem_of_app; auto.
    + intros x [?|?]%elem_of_app; auto.
  - intros [Hm Hf]. split_and!; intros x ? ?.
    + apply Hm; [apply elem_of_app|]; auto.
    + apply Hm; [apply elem_of_app|]; auto.
    + apply Hf; [apply elem_of_app|]; auto.
    + apply Hf; [apply elem_of_app|]; auto.
Qed.

Lemma check_methods_public_only methods api rtf :
  check_methods (filter (λ m, meth_public m = true) methods) api rtf
  = check_methods methods api rtf.
Proof.
  rewrite !check_methods_unfold.
  induction methods as [|m l IH]; [done|].
  rewrite filter_cons. simpl. unfold is_public_method.
  destruct (meth_public m) eqn:Hpub.
  - rewrite decide_True by done. simpl. unfold is_public_method.
    rewrite Hpub. simpl. by rewrite IH.
  - rewrite decide_False by done. by rewrite IH.
Qed.

Lemma check_fields_public_only fields api rtf :
  check_fields (filter (λ f, field_public f = true) fields) api rtf
  = check_fields fields api rtf.
Proof.
  rewrite !check_fields_unfold.
  induction fields as [|f l IH]; [done|].
  rewrite filter_cons. simpl. unfold is_public_field.
  destruct (field_public f) eqn:Hpub.
  - rewrite decide_True by done. simpl. unfold is_public_field.
    rewrite Hpub. simpl. by rewrite IH.
  - rewrite decide_False by done. by rewrite IH.
Qed.

(** C3. For every class, framework descriptor and index, the member check
    succeeds exactly when every public method of the class (direct and
    virtual) has a method of the same name and index-substituted signature
    in the descriptor, and every public field (static and instance) a field
    of the same name and substituted type.  Dropping the non-public members
    never changes the result, and an empty method or field list passes. *)
Theorem check_members_iff_public_members_have_counterparts :
  ∀ (c : DexClass) (framework_api : FrameworkAPI)
    (release_to_framework : gmap DexType DexType),
    (check_members c framework_api release_to_framework = true
     ↔ members_compatible c framework_api release_to_framework)
    ∧ check_members (public_surface c) framework_api release_to_framework
      = check_members c framework_api release_to_framework
    ∧ check_methods [] framework_api release_to_framework = true
    ∧ check_fields [] framework_api release_to_framework = true.
Proof.
  intros c api rtf. split_and!; try done.
  - apply check_members_true.
  - rewrite !check_members_split. simpl.
    by rewrite !check_methods_public_only, !check_fields_public_only.
Qed.

(** ** Hierarchy check: characterisation *)

Section HierarchyFacts.

Variable type_class : DexType → option DexClass.

Lemma check_if_present_loop_true l (rtf : gmap DexType DexType) :
  check_if_present_loop type_class l rtf = true
  ↔ ∀ t, t ∈ l → external_or_key type_class rtf t.
Proof.
  unfold external_or_key, external_type.
  induction l as [|t l IH]; simpl.
  - split; [|done]. by intros _ ? ?%elem_of_nil.
  - destruct (type_class t) as [c|] eqn:Hc.
    + destruct (is_external c) eqn:Hext.
      * rewrite IH. split.
        -- intros H x [->|?]%elem_of_cons; [|by apply H].
           rewrite Hc. by left.
        -- intros H x ?. apply H. rewrite elem_of_cons. by right.
      * destruct (decide (rtf !! t = None)) as [Hn|Hn].
        -- split; [done|]. intros H.
           destruct (H t) as [He|[? Hs]]; [rewrite elem_of_cons; by left | |].
           ++ rewrite Hc in He. congruence.
           ++ congruence.
        -- rewrite IH. split.
           ++ intros H x [->|?]%elem_of_cons; [|by apply H].
              right. by apply not_eq_None_Some.
           ++ intros H x ?. apply H. rewrite elem_of_cons. by right.
    + rewrite IH. split.
      * intros H x [->|?]%elem_of_cons; [|by apply H].
        rewrite Hc. by left.
      * intros H x ?. apply H. rewrite elem_of_cons. by right.
Qed.

Lemma check_if_present_true (types : gset string) (rtf : gmap DexType DexType) :
  check_if_present type_class types rtf = true
  ↔ ∀ t, t ∈ types → external_or_key type_class rtf t.
Proof.
  unfold check_if_present. rewrite check_if_present_loop_true.
  by setoid_rewrite elem_of_elements.
Qed.

Lemma check_hierarchy_true ts c api (rtf : gmap DexType DexType) :
  check_hierarchy type_class ts c api rtf = true
  ↔ hierarchy_compatible type_class ts c rtf.
Proof.
  unfold check_hierarchy, hierarchy_compatible, root_or_key.
  destruct (is_interface c); simpl.
  - rewrite <- check_if_present_true.
    by destruct (check_if_present _ _ _).
  - rewrite <- check_if_present_true.
    destruct (check_if_present _ _ _); simpl;
      [|split; [done | by intros [? _]]].
    destruct (get_super_class c) as [s|];
      [|split; [done | by intros [_ (? & ? & _)]]].
    destruct (bool_decide (s ≠ java_lang_Object)
              && bool_decide (rtf !! s = None)) eqn:E.
    + apply andb_true_iff in E as [?%bool_decide_eq_true ?%bool_decide_eq_true].
      split; [done|]. intros [_ (s' & [= <-] & [?|[? ?]])]; congruence.
    + split; [|done]. intros _. split; [done|]. exists s. split; [done|].
      apply andb_false_iff in E as [E|E]; apply bool_decide_eq_false in E.
      * left. by destruct (decide (s = java_lang_Object)).
      * right. by apply not_eq_None_Some.
Qed.

Lemma check_if_present_unresolved (types extra : gset string)
    (rtf : gmap DexType DexType) :
  (∀ t, t ∈ extra → type_class t = None) →
  check_if_present type_class (types ∪ extra) rtf
  = check_if_present type_class types rtf.
Proof.
  intros Hextra.
  apply eq_true_iff_eq. rewrite !check_if_present_true.
  split; intros H t Ht.
  - apply H. set_solver.
  - apply elem_of_union in Ht as [?|Ht]; [by apply H|].
    left. unfold external_type. by rewrite (Hextra t Ht).
Qed.

End HierarchyFacts.

(** C4. For every class, descriptor and index: the hierarchy check of an
    interface passes exactly when every interface it transitively extends
    is external or a key of the index; the check of a concrete class passes
    exactly when every interface it implements is external or a key and its
    immediate superclass is the root object type or a key.  External is
    the glossary's notion, [external_type]: a type that the program does
    not define, be it without class definition or with one marked
    external. *)
Theorem check_hierarchy_iff_hierarchy_compatible :
  ∀ (type_class : DexType → option DexClass) (type_system : TypeSystem)
    (c : DexClass) (framework_api : FrameworkAPI)
    (release_to_framework : gmap DexType DexType),
    check_hierarchy type_class type_system c framework_api
      release_to_framework = true
    ↔ hierarchy_compatible type_class type_system c release_to_framework.
Proof. intros. apply check_hierarchy_true. Qed.

(** C10. Hierarchy types without a class definition never make a pair
    fail, whatever the index contains: a set of such types passes the
    presence test, and reporting them as additional implemented or super
    interfaces of the class leaves the hierarchy check unchanged. *)
Theorem unresolved_hierarchy_types_are_accepted :
  ∀ (type_class : DexType → option DexClass) (type_system : TypeSystem)
    (c : DexClass) (framework_api : FrameworkAPI)
    (release_to_framework : gmap DexType DexType) (unresolved : gset string),
    (∀ t, t ∈ unresolved → type_class t = None) →
    check_if_present type_class unresolved release_to_framework = true
    ∧ check_hierarchy type_class
        (with_extra_hierarchy_types type_system (get_type c) unresolved)
        c framework_api release_to_framework
      = check_hierarchy type_class type_system c framework_api
          release_to_framework.
Proof.
  intros tc ts c api rtf U HU. split.
  - apply check_if_present_true. intros t Ht. left.
    unfold external_type. by rewrite (HU t Ht).
  - unfold check_hierarchy, with_extra_hierarchy_types. simpl.
    rewrite !decide_True by done.
    by rewrite !check_if_present_unresolved.
Qed.

(** ** The resolver: one scan *)

Lemma erase_all_lookup {V} (keys : list string) (m : gmap string V) k :
  erase_all keys m !! k = if decide (k ∈ keys) then None else m !! k.
Proof.
  unfold erase_all. revert m.
  induction keys as [|x keys IH]; intros m.
  - case_decide as Hin; [by apply elem_of_nil in Hin | done].
  - cbn [foldl]. rewrite IH.
    destruct (decide (k ∈ keys)) as [Hin|Hin].
    + rewrite decide_True; [done | rewrite elem_of_cons; by right].
    + destruct (decide (k = x)) as [->|Hne].
      * rewrite lookup_delete_eq.
        rewrite decide_True; [done | rewrite elem_of_cons; by left].
      * rewrite lookup_delete_ne by done.
        rewrite decide_False; [done|].
        rewrite elem_of_cons. by intros [?|?].
Qed.

Lemma erase_all_subseteq {V} (keys : list string) (m : gmap string V) :
  erase_all keys m ⊆ m.
Proof.
  apply map_subseteq_spec. intros k v. rewrite erase_all_lookup.
  by case_decide.
Qed.

Section ResolverFacts.

Variable type_class : DexType → option DexClass.
Variable type_system : TypeSystem.

Local Abbreviation collect := (collect_to_remove type_class type_system).
Local Abbreviation passes := (pair_passes type_class type_system).
Local Abbreviation loop := (resolver_loop type_class type_system).

Lemma collect_to_remove_Some pairs rtf acc to_remove :
  collect pairs rtf acc = Some to_remove →
  (∀ t api, (t, api) ∈ pairs → is_Some (type_class t))
  ∧ ∀ t, t ∈ to_remove
         ↔ t ∈ acc ∨ ∃ api, (t, api) ∈ pairs ∧ passes rtf t api = false.
Proof.
  revert acc. induction pairs as [|[t0 api0] pairs IH]; intros acc; simpl.
  - intros [= <-]. split; [by intros ?? ?%elem_of_nil|].
    intros t. split; [by left|].
    by intros [?|(? & ?%elem_of_nil & _)].
  - destruct (type_class t0) as [c|] eqn:Hc; [|done].
    assert (passes rtf t0 api0
            = check_members c api0 rtf
              && check_hierarchy type_class type_system c api0 rtf) as Hp
      by (unfold pair_passes; by rewrite Hc).
    intros Hcollect.
    assert (∃ acc', collect pairs rtf acc' = Some to_remove
              ∧ ∀ t, t ∈ acc' ↔ t ∈ acc ∨ (t = t0 ∧ passes rtf t0 api0 = false))
      as (acc' & Hrest & Hacc').
    { rewrite Hp.
      destruct (check_members c api0 rtf); simpl in *;
        [destruct (check_hierarchy _ _ _ _ _); simpl in *|];
        eexists; (split; [exact Hcollect|]); intros t;
        rewrite ?elem_of_union, ?elem_of_singleton; intuition congruence. }
    destruct (IH _ Hrest) as [Hcls Hmem]. split.
    + intros t api [[= -> ->]|?]%elem_of_cons; [by rewrite Hc | eauto].
    + intros t. rewrite Hmem, Hacc'. split.
      * intros [[?|[-> ?]]|(api & ? & ?)]; [by left | right | right].
        -- exists api0. split; [rewrite elem_of_cons; by left | done].
        -- exists api. split; [rewrite elem_of_cons; by right | done].
      * intros [?|(api & [[= -> ->]|?]%elem_of_cons & ?)]; eauto.
Qed.

Lemma collect_to_remove_is_Some pairs rtf acc :
  is_Some (collect pairs rtf acc)
  ↔ ∀ t api, (t, api) ∈ pairs → is_Some (type_class t).
Proof.
  split.
  - intros [S HS]. by apply collect_to_remove_Some in HS as [? _].
  - revert acc. induction pairs as [|[t0 api0] pairs IH]; intros acc H; simpl.
    + done.
    + destruct (H t0 api0) as [c Hc]; [rewrite elem_of_cons; by left|].
      rewrite Hc.
      assert (∀ t api, (t, api) ∈ pairs → is_Some (type_class t)) as H'
        by (intros ???; eapply H; rewrite elem_of_cons; by right).
      destruct (negb (check_members c api0 rtf)); [by apply IH|].
      destruct (negb (check_hierarchy _ _ _ _ _)); by apply IH.
Qed.

Lemma collect_to_remove_None pairs rtf acc :
  collect pairs rtf acc = None →
  ∃ t api, (t, api) ∈ pairs ∧ type_class t = None.
Proof.
  revert acc. induction pairs as [|[t0 api0] pairs IH]; intros acc; simpl;
    [done|].
  destruct (type_class t0) as [c|] eqn:Hc.
  - intros Hrest.
    assert (∃ acc', collect pairs rtf acc' = None) as [acc' Hacc'].
    { destruct (negb (check_members c api0 rtf)); [eauto|].
      destruct (negb (check_hierarchy _ _ _ _ _)); eauto. }
    destruct (IH _ Hacc') as (t & api & Hin & Hnone).
    exists t, api. split; [rewrite elem_of_cons; by right | done].
  - intros _. exists t0, api0. split; [rewrite elem_of_cons; by left | done].
Qed.

(** The scan does not depend on the order in which the unordered map
    enumerates its pairs. *)
Lemma collect_to_remove_order_irrelevant pairs pairs' rtf acc :
  pairs ≡ₚ pairs' → collect pairs rtf acc = collect pairs' rtf acc.
Proof.
  intros Hperm.
  destruct (collect pairs rtf acc) as [S|] eqn:H1;
    destruct (collect pairs' rtf acc) as [S'|] eqn:H2.
  - f_equal. apply set_eq. intros t.
    apply collect_to_remove_Some in H1 as [_ ->].
    apply collect_to_remove_Some in H2 as [_ ->].
    by setoid_rewrite Hperm.
  - assert (is_Some (collect pairs' rtf acc)) as [? ?]; [|congruence].
    apply collect_to_remove_is_Some.
    apply collect_to_remove_Some in H1 as [H1 _].
    intros t api Hin. apply (H1 t api). by rewrite Hperm.
  - assert (is_Some (collect pairs rtf acc)) as [? ?]; [|congruence].
    apply collect_to_remove_is_Some.
    apply collect_to_remove_Some in H2 as [H2 _].
    intros t api Hin. apply (H2 t api). by rewrite <- Hperm.
  - done.
Qed.

Lemma scan_to_remove (m : gmap DexType FrameworkAPI) rtf to_remove :
  collect (map_to_list m) rtf ∅ = Some to_remove →
  ∀ t, t ∈ to_remove ↔ ∃ api, m !! t = Some api ∧ passes rtf t api = false.
Proof.
  intros [_ H]%collect_to_remove_Some t. rewrite H.
  setoid_rewrite elem_of_map_to_list.
  split; [by intros [?%not_elem_of_empty|?] | by right].
Qed.

Lemma scan_erase_lookup (m : gmap DexType FrameworkAPI) rtf to_remove t api :
  collect (map_to_list m) rtf ∅ = Some to_remove →
  erase_all (elements to_remove) m !! t = Some api
  ↔ m !! t = Some api ∧ passes rtf t api = true.
Proof.
  intros Hscan. rewrite erase_all_lookup.
  pose proof (scan_to_remove _ _ _ Hscan t) as Ht.
  case_decide as Hin; rewrite elem_of_elements in Hin.
  - split; [done|]. intros [Hm Hp].
    apply Ht in Hin as (api' & Hm' & Hp'). congruence.
  - split; [|by intros [? _]]. intros Hm. split; [done|].
    destruct (passes rtf t api) eqn:Hp; [done|].
    exfalso. apply Hin, Ht. eauto.
Qed.

Lemma scan_erase_size (m : gmap DexType FrameworkAPI) rtf to_remove :
  collect (map_to_list m) rtf ∅ = Some to_remove →
  to_remove ≠ ∅ →
  size (erase_all (elements to_remove) m) < size m.
Proof.
  intros Hscan Hne. apply map_subset_size, map_subset_alt.
  split; [apply erase_all_subseteq|].
  apply set_choose_L in Hne as [t Ht].
  pose proof (proj1 (scan_to_remove _ _ _ Hscan t) Ht) as (api & Hm & _).
  exists t. split; [|by rewrite Hm].
  rewrite erase_all_lookup, decide_True; [done|].
  by apply elem_of_elements.
Qed.

Lemma scan_empty_iff_converged (m : gmap DexType FrameworkAPI) :
  collect (map_to_list m) (release_to_framework_of m) ∅ = Some ∅
  ↔ converged type_class type_system m.
Proof.
  split.
  - intros Hscan t api Hm.
    destruct (passes (release_to_framework_of m) t api) eqn:Hp; [done|].
    exfalso. eapply (not_elem_of_empty (C:=gset string) t).
    apply (scan_to_remove _ _ _ Hscan). eauto.
  - intros Hconv.
    assert (is_Some (collect (map_to_list m) (release_to_framework_of m) ∅))
      as [S HS].
    { apply collect_to_remove_is_Some. intros t api Hin%elem_of_map_to_list.
      specialize (Hconv t api Hin). unfold pair_passes in Hconv.
      by destruct (type_class t). }
    rewrite HS. f_equal. apply set_eq. intros t.
    rewrite (scan_to_remove _ _ _ HS). split; [|by intros ?%not_elem_of_empty].
    intros (api & Hm & Hp). rewrite (Hconv t api Hm) in Hp. done.
Qed.

End ResolverFacts.

(** ** The resolver: the loop *)

Section LoopFacts.

Variable type_class : DexType → option DexClass.
Variable type_system : TypeSystem.

Local Abbreviation collect := (collect_to_remove type_class type_system).
Local Abbreviation loop := (resolver_loop type_class type_system).
Local Abbreviation resolve :=
  (check_and_update_release_to_framework type_class type_system).

Lemma resolver_loop_Done fuel (m m' : gmap DexType FrameworkAPI) n :
  loop fuel m = Done (m', n) →
  m' ⊆ m ∧ converged type_class type_system m'
  ∧ 1 ≤ n ∧ n + size m' ≤ S (size m) ∧ n ≤ fuel.
Proof.
  revert m n. induction fuel as [|fuel IH]; intros m n; [done|].
  simpl.
  destruct (collect (map_to_list m) (release_to_framework_of m) ∅)
    as [to_remove|] eqn:Hscan; [|done].
  destruct (decide (to_remove = ∅)) as [->|Hne].
  - intros [= <- <-]. split_and!; [done | | lia | lia | lia].
    by apply scan_empty_iff_converged.
  - destruct (loop fuel (erase_all (elements to_remove) m))
      as [[m'' k]| |] eqn:Hrec; [|done|done].
    intros [= <- <-].
    destruct (IH _ _ Hrec) as (Hsub & Hconv & Hk & Hsize & Hfuel).
    pose proof (scan_erase_size _ _ _ _ _ Hscan Hne).
    split_and!; [|done|lia|lia|lia].
    etrans; [exact Hsub | apply erase_all_subseteq].
Qed.

Lemma resolver_loop_enough_fuel fuel (m : gmap DexType FrameworkAPI) :
  size m < fuel → loop fuel m ≠ OutOfFuel.
Proof.
  revert m. induction fuel as [|fuel IH]; intros m Hlt; [lia|].
  simpl.
  destruct (collect (map_to_list m) (release_to_framework_of m) ∅)
    as [to_remove|] eqn:Hscan; [|done].
  destruct (decide (to_remove = ∅)) as [->|Hne]; [done|].
  pose proof (scan_erase_size _ _ _ _ _ Hscan Hne).
  specialize (IH (erase_all (elements to_remove) m)).
  destruct (loop fuel (erase_all (elements to_remove) m)) as [[??]| |];
    [done | done | apply IH; lia].
Qed.

Lemma resolver_loop_more_fuel fuel fuel' (m : gmap DexType FrameworkAPI) :
  loop fuel m ≠ OutOfFuel → fuel ≤ fuel' → loop fuel' m = loop fuel m.
Proof.
  revert fuel' m. induction fuel as [|fuel IH]; intros fuel' m Hne Hle;
    [done|].
  destruct fuel' as [|fuel']; [lia|].
  simpl in *.
  destruct (collect (map_to_list m) (release_to_framework_of m) ∅)
    as [to_remove|]; [|done].
  destruct (decide (to_remove = ∅)); [done|].
  rewrite (IH fuel' (erase_all (elements to_remove) m)); [done | | lia].
  by destruct (loop fuel (erase_all (elements to_remove) m)) as [[??]| |].
Qed.

Lemma resolver_loop_converged fuel (m : gmap DexType FrameworkAPI) :
  converged type_class type_system m → loop (S fuel) m = Done (m, 1).
Proof.
  intros Hconv%scan_empty_iff_converged. simpl. rewrite Hconv.
  by rewrite decide_True.
Qed.

Lemma resolver_loop_Abort fuel (m : gmap DexType FrameworkAPI) :
  loop fuel m = Abort → ∃ t, is_Some (m !! t) ∧ type_class t = None.
Proof.
  revert m. induction fuel as [|fuel IH]; intros m; [done|].
  simpl.
  destruct (collect (map_to_list m) (release_to_framework_of m) ∅)
    as [to_remove|] eqn:Hscan.
  - destruct (decide (to_remove = ∅)); [done|].
    destruct (loop fuel (erase_all (elements to_remove) m))
      as [[??]| |] eqn:Hrec; [done| |done].
    intros _. destruct (IH _ Hrec) as (t & [api Ht] & Hnone).
    exists t. split; [|done]. exists api.
    by eapply lookup_weaken; [|apply erase_all_subseteq].
  - intros _.
    apply collect_to_remove_None in Hscan as (t & api & Hin & Hnone).
    exists t. split; [|done]. exists api. by apply elem_of_map_to_list.
Qed.

Lemma resolve_Done_iff fuel (m m' : gmap DexType FrameworkAPI) :
  resolve fuel m = Done m' ↔ ∃ n, loop fuel m = Done (m', n).
Proof.
  unfold check_and_update_release_to_framework.
  destruct (loop fuel m) as [[m'' k]| |].
  - split; [intros [= <-]; by exists k | by intros (n & [= <- <-])].
  - split; [done | by intros [? ?]].
  - split; [done | by intros [? ?]].
Qed.

Lemma resolve_enough_fuel fuel (m : gmap DexType FrameworkAPI) :
  size m < fuel → resolve fuel m ≠ OutOfFuel.
Proof.
  intros Hlt%resolver_loop_enough_fuel.
  unfold check_and_update_release_to_framework.
  by destruct (loop fuel m) as [[??]| |].
Qed.

Lemma resolve_more_fuel fuel fuel' (m : gmap DexType FrameworkAPI) :
  resolve fuel m ≠ OutOfFuel → fuel ≤ fuel' → resolve fuel' m = resolve fuel m.
Proof.
  unfold check_and_update_release_to_framework. intros Hne Hle.
  rewrite (resolver_loop_more_fuel fuel fuel'); [done | | done].
  by destruct (loop fuel m) as [[??]| |].
Qed.

Lemma resolve_Done fuel (m m' : gmap DexType FrameworkAPI) :
  resolve fuel m = Done m' →
  m' ⊆ m ∧ converged type_class type_system m'.
Proof.
  intros (n & Hloop)%resolve_Done_iff.
  by apply resolver_loop_Done in Hloop as (? & ? & _).
Qed.

Lemma resolve_converged fuel (m : gmap DexType FrameworkAPI) :
  converged type_class type_system m → resolve (S fuel) m = Done m.
Proof.
  intros Hconv. apply resolve_Done_iff. exists 1.
  by apply resolver_loop_converged.
Qed.

Lemma resolve_Abort fuel (m : gmap DexType FrameworkAPI) :
  resolve fuel m = Abort → ∃ t, is_Some (m !! t) ∧ type_class t = None.
Proof.
  unfold check_and_update_release_to_framework.
  destruct (loop fuel m) as [[??]| |] eqn:Hloop; [done| |done].
  intros _. by eapply resolver_loop_Abort.
Qed.

(** On a mapping all of whose keys have a class definition, the resolver
    returns a mapping. *)
Lemma resolve_returns (m : gmap DexType FrameworkAPI) :
  (∀ t, is_Some (m !! t) → is_Some (type_class t)) →
  ∃ m', resolve (S (size m)) m = Done m'.
Proof.
  intros Hcls.
  destruct (resolve (S (size m)) m) as [m'| |] eqn:Hrun.
  - by exists m'.
  - apply resolve_Abort in Hrun as (t & Hkey & Hnone).
    destruct (Hcls t Hkey) as [? ?]. congruence.
  - exfalso. revert Hrun. apply resolve_enough_fuel. lia.
Qed.

End LoopFacts.

Lemma release_to_framework_of_dom (m : gmap DexType FrameworkAPI) :
  dom (release_to_framework_of m) = dom m.
Proof. unfold release_to_framework_of. apply dom_fmap_L. Qed.

Lemma release_to_framework_of_None (m : gmap DexType FrameworkAPI) t :
  m !! t = None → release_to_framework_of m !! t = None.
Proof. intros H. unfold release_to_framework_of. by rewrite lookup_fmap, H. Qed.

Lemma subseteq_dom_size (m m' : gmap DexType FrameworkAPI) :
  m' ⊆ m → dom m' ⊆ dom m ∧ size m' ≤ size m.
Proof. intros H. split; [by apply subseteq_dom | by apply map_subseteq_size]. Qed.

Lemma filter_types_Done type_class type_system fuel (types : gset string)
    (m m' : gmap DexType FrameworkAPI) :
  filter_types type_class type_system fuel types m = Done m' →
  m' ⊆ m ∧ converged type_class type_system m'
  ∧ ∀ t, t ∈ types → m' !! t = None.
Proof.
  unfold filter_types. intros [Hsub Hconv]%resolve_Done.
  split_and!; [|done|].
  - etrans; [exact Hsub | apply erase_all_subseteq].
  - intros t Ht. eapply lookup_weaken_None; [|exact Hsub].
    rewrite erase_all_lookup, decide_True; [done|].
    by apply elem_of_elements.
Qed.

Lemma filter_types_enough_fuel type_class type_system fuel
    (types : gset string) (m : gmap DexType FrameworkAPI) :
  size m < fuel → filter_types type_class type_system fuel types m ≠ OutOfFuel.
Proof.
  intros Hlt. unfold filter_types. apply resolve_enough_fuel.
  eapply Nat.le_lt_trans; [|exact Hlt].
  apply map_subseteq_size, erase_all_subseteq.
Qed.

(** C1. When the resolver returns, every pair [(R, F)] left in the mapping
    has a class definition and passes the member check and the hierarchy
    check against the index of the final mapping: every public member of
    [R] has its substituted counterpart in [F], every interface in [R]'s
    hierarchy is external or a key of the final mapping, and the superclass
    of a concrete [R] is the root object type or such a key (hence external
    or a key, the root object type being external). *)
Theorem resolver_survivors_pass_both_checks :
  ∀ (type_class : DexType → option DexClass) (type_system : TypeSystem)
    (fuel : nat) (m m' : gmap DexType FrameworkAPI),
    check_and_update_release_to_framework type_class type_system fuel m
      = Done m' →
    dom (release_to_framework_of m') = dom m'
    ∧ ∀ R F, m' !! R = Some F →
        ∃ c, type_class R = Some c
          ∧ check_members c F (release_to_framework_of m') = true
          ∧ check_hierarchy type_class type_system c F
              (release_to_framework_of m') = true
          ∧ members_compatible c F (release_to_framework_of m')
          ∧ hierarchy_compatible type_class type_system c
              (release_to_framework_of m')
          ∧ (external_type type_class java_lang_Object →
             is_interface c = false →
             ∃ s, get_super_class c = Some s
                  ∧ external_or_key type_class
                      (release_to_framework_of m') s).
Proof.
  intros tc ts fuel m m' [_ Hconv]%resolve_Done.
  split; [apply release_to_framework_of_dom|].
  intros R F HR. specialize (Hconv R F HR). unfold pair_passes in Hconv.
  destruct (tc R) as [c|]; [|done].
  apply andb_true_iff in Hconv as [Hmem Hhier].
  pose proof (proj1 (check_hierarchy_true tc ts c F _) Hhier) as Hcompat.
  exists c. split; [done|]. split; [done|]. split; [done|].
  split; [by apply check_members_true|]. split; [exact Hcompat|].
  intros Hroot Hconcrete. unfold hierarchy_compatible in Hcompat.
  rewrite Hconcrete in Hcompat. destruct Hcompat as [_ (s & Hs & Hok)].
  exists s. split; [done|]. destruct Hok as [->|?]; [by left | by right].
Qed.

(** C6. The mapping never gains a key: the removal step of every resolver
    iteration, a whole resolver run and a whole [filter_types] call each
    leave a key set included in the one before, hence of no greater size. *)
Theorem mapping_never_grows :
  ∀ (type_class : DexType → option DexClass) (type_system : TypeSystem),
    (∀ (m : gmap DexType FrameworkAPI) to_remove,
       collect_to_remove type_class type_system (map_to_list m)
         (release_to_framework_of m) ∅ = Some to_remove →
       dom (erase_all (elements to_remove) m) ⊆ dom m
       ∧ size (erase_all (elements to_remove) m) ≤ size m)
    ∧ (∀ fuel (m m' : gmap DexType FrameworkAPI),
         check_and_update_release_to_framework type_class type_system fuel m
           = Done m' →
         dom m' ⊆ dom m ∧ size m' ≤ size m)
    ∧ (∀ fuel (types : gset string) (m m' : gmap DexType FrameworkAPI),
         filter_types type_class type_system fuel types m = Done m' →
         dom m' ⊆ dom m ∧ size m' ≤ size m).
Proof.
  intros tc ts. split_and!.
  - intros m S _. apply subseteq_dom_size, erase_all_subseteq.
  - intros fuel m m' [Hsub _]%resolve_Done. by apply subseteq_dom_size.
  - intros fuel types m m' [Hsub _]%filter_types_Done.
    by apply subseteq_dom_size.
Qed.

(** C7 (amended). The loop terminates on every mapping: [size m + 1]
    unrollings always suffice and more fuel never changes the result.  Each
    iteration either marks nothing and halts or strictly shrinks the
    mapping, so the loop body runs at most [size m + 1] times: at most
    [size m] removing iterations followed by the halting one. *)
Theorem resolver_terminates_within_size_plus_one :
  ∀ (type_class : DexType → option DexClass) (type_system : TypeSystem)
    (m : gmap DexType FrameworkAPI),
    resolver_loop type_class type_system (S (size m)) m ≠ OutOfFuel
    ∧ (∀ fuel, S (size m) ≤ fuel →
         resolver_loop type_class type_system fuel m
         = resolver_loop type_class type_system (S (size m)) m)
    ∧ (∀ fuel m' iterations,
         resolver_loop type_class type_system fuel m = Done (m', iterations) →
         1 ≤ iterations ∧ iterations ≤ S (size m)
         ∧ iterations - 1 ≤ size m - size m')
    ∧ (∀ to_remove,
         collect_to_remove type_class type_system (map_to_list m)
           (release_to_framework_of m) ∅ = Some to_remove →
         to_remove = ∅ ∨ size (erase_all (elements to_remove) m) < size m).
Proof.
  intros tc ts m.
  assert (resolver_loop tc ts (S (size m)) m ≠ OutOfFuel) as Hfuel
    by (apply resolver_loop_enough_fuel; lia).
  split_and!; [done | | |].
  - intros fuel Hle. by apply resolver_loop_more_fuel.
  - intros fuel m' n (Hsub & _ & ? & ? & _)%resolver_loop_Done.
    apply map_subseteq_size in Hsub. lia.
  - intros S HS. destruct (decide (S = ∅)); [by left | right].
    by eapply scan_erase_size.
Qed.

(** C9. On a converged mapping, one where no pair fails validation against
    the mapping's own index, a resolver run halts in its first iteration
    and returns the mapping unchanged.  Every mapping a resolver run returns
    is converged, so running the resolver on its own result returns that
    result. *)
Theorem resolver_idempotent :
  ∀ (type_class : DexType → option DexClass) (type_system : TypeSystem),
    (∀ (m : gmap DexType FrameworkAPI) (fuel : nat),
       converged type_class type_system m →
       check_and_update_release_to_framework type_class type_system
         (S fuel) m = Done m)
    ∧ (∀ (fuel fuel' : nat) (m m' : gmap DexType FrameworkAPI),
         check_and_update_release_to_framework type_class type_system fuel m
           = Done m' →
         converged type_class type_system m'
         ∧ check_and_update_release_to_framework type_class type_system
             (S fuel') m' = Done m').
Proof.
  intros tc ts. split.
  - intros m fuel. apply resolve_converged.
  - intros fuel fuel' m m' [_ Hconv]%resolve_Done.
    split; [done | by apply resolve_converged].
Qed.

(** ** Candidate selection: the simple-name index *)

Section IndexFacts.

Variable type_class : DexType → option DexClass.

Local Abbreviation simple := (get_simple_deobfuscated_name type_class).

Lemma collect_simple_names_invariant pairs seen filter idx filter' idx' :
  NoDup (seen ++ pairs).*1 →
  index_invariant type_class seen filter idx →
  collect_simple_names type_class pairs filter idx = Some (filter', idx') →
  index_invariant type_class (seen ++ pairs) filter' idx'.
Proof.
  revert seen filter idx.
  induction pairs as [|[t api] pairs IH]; intros seen filter idx Hnd Hinv;
    simpl.
  - intros [= <- <-]. by rewrite app_nil_r.
  - destruct (simple t) as [s|] eqn:Hs; [|done].
    replace (seen ++ (t, api) :: pairs) with ((seen ++ [(t, api)]) ++ pairs)
      in * by (by rewrite <- app_assoc).
    assert (t ∉ seen.*1) as Hfresh.
    { rewrite !fmap_app in Hnd. apply NoDup_app in Hnd as [Hnd _].
      apply NoDup_app in Hnd as (_ & Hdisj & _).
      intros Hin. apply (Hdisj t Hin). simpl. apply list_elem_of_singleton.
      done. }
    destruct Hinv as (I1 & I2 & I3).
    destruct (idx !! s) as [t0|] eqn:Hidx; apply IH; try done.
    + (* the name is taken: it goes on the filter list *)
      split_and!.
      * intros s' t' Hl. destruct (I1 _ _ Hl) as [? ?].
        split; [|done]. rewrite fmap_app, elem_of_app. by left.
      * intros t' s'. rewrite fmap_app, elem_of_app. simpl.
        rewrite list_elem_of_singleton, elem_of_app.
        intros [Hin| ->] Hs'.
        -- destruct (I2 _ _ Hin Hs'); auto.
        -- assert (s' = s) as -> by congruence.
           right. right. by apply list_elem_of_singleton.
      * intros s'. rewrite elem_of_app, list_elem_of_singleton.
        intros [Hin| ->].
        -- destruct (I3 _ Hin) as (t1 & t2 & ? & ? & ? & ? & ?).
           exists t1, t2. rewrite !fmap_app, !elem_of_app. auto 10.
        -- destruct (I1 _ _ Hidx) as [Hin0 Hs0].
           exists t0, t. split_and!; try done.
           ++ by intros ->.
           ++ rewrite fmap_app, elem_of_app. by left.
           ++ rewrite fmap_app, elem_of_app. right. simpl.
              by apply list_elem_of_singleton.
    + (* the name is free: the class becomes its holder *)
      split_and!.
      * intros s' t'. rewrite lookup_insert_Some, fmap_app, elem_of_app.
        simpl. rewrite list_elem_of_singleton.
        intros [[<- <-]|[? Hl]]; [auto|].
        destruct (I1 _ _ Hl). auto.
      * intros t' s'. rewrite fmap_app, elem_of_app. simpl.
        rewrite list_elem_of_singleton, lookup_insert_Some.
        intros [Hin| ->] Hs'.
        -- destruct (decide (s = s')) as [<-|Hne].
           ++ destruct (I2 _ _ Hin Hs') as [?|?]; [congruence | by right].
           ++ destruct (I2 _ _ Hin Hs'); auto.
        -- left. left. split; congruence.
      * intros s' Hin.
        destruct (I3 _ Hin) as (t1 & t2 & ? & ? & ? & ? & ?).
        exists t1, t2. rewrite !fmap_app, !elem_of_app. auto 10.
Qed.

Lemma collect_simple_names_is_Some pairs filter idx :
  is_Some (collect_simple_names type_class pairs filter idx)
  ↔ ∀ t, t ∈ pairs.*1 → is_Some (simple t).
Proof.
  revert filter idx.
  induction pairs as [|[t api] pairs IH]; intros filter idx; simpl.
  - split; [by intros _ ? ?%elem_of_nil | done].
  - destruct (simple t) as [s|] eqn:Hs.
    + assert ((∀ t', t' ∈ t :: pairs.*1 → is_Some (simple t'))
              ↔ ∀ t', t' ∈ pairs.*1 → is_Some (simple t')) as ->.
      { split; intros H t'.
        - intros ?. apply H. rewrite elem_of_cons. by right.
        - intros [->|?]%elem_of_cons; [by rewrite Hs | by apply H]. }
      destruct (idx !! s); apply IH.
    + split; [by intros [? ?]|]. intros H.
      destruct (H t) as [? ?]; [rewrite elem_of_cons; by left | congruence].
Qed.

(** The accepted-types index holds exactly the simple names that have a
    single claimant in the catalogue, each mapped to that claimant. *)
Lemma simple_index_spec pairs index :
  NoDup pairs.*1 →
  simple_cls_name_to_accepted_types_of type_class pairs = Some index →
  ∀ s t, index !! s = Some t
         ↔ t ∈ pairs.*1 ∧ simple t = Some s
           ∧ ∀ t', t' ∈ pairs.*1 → simple t' = Some s → t' = t.
Proof.
  unfold simple_cls_name_to_accepted_types_of. intros Hnd.
  destruct (collect_simple_names type_class pairs [] ∅)
    as [[filter idx]|] eqn:Hcollect; [|done].
  intros [= <-] s t.
  apply (collect_simple_names_invariant pairs [] [] ∅) in Hcollect
    as (I1 & I2 & I3); [|done|]; cycle 1.
  { split_and!; [by intros ?? ?%lookup_empty_Some | | ].
    - by intros ?? ?%elem_of_nil.
    - by intros ? ?%elem_of_nil. }
  simpl in *. rewrite erase_all_lookup.
  assert (∀ t1 t2, t1 ∈ pairs.*1 → t2 ∈ pairs.*1 → t1 ≠ t2 →
            simple t1 = Some s → simple t2 = Some s → s ∈ filter) as Htwo.
  { intros t1 t2 H1 H2 Hne Hs1 Hs2.
    destruct (I2 _ _ H1 Hs1) as [Hl1|?]; [|done].
    destruct (I2 _ _ H2 Hs2) as [Hl2|?]; [|done]. congruence. }
  case_decide as Hfilter.
  - split; [done|]. intros (Hin & Hs & Huniq).
    destruct (I3 _ Hfilter) as (t1 & t2 & Hne & H1 & H2 & Hs1 & Hs2).
    rewrite (Huniq t1 H1 Hs1), (Huniq t2 H2 Hs2) in Hne. done.
  - split.
    + intros Hl. destruct (I1 _ _ Hl) as [Hin Hs]. split_and!; try done.
      intros t' Hin' Hs'. destruct (decide (t' = t)); [done|].
      exfalso. apply Hfilter. by apply (Htwo t' t).
    + intros (Hin & Hs & _). by destruct (I2 _ _ Hin Hs).
Qed.

Lemma simple_index_is_Some pairs :
  is_Some (simple_cls_name_to_accepted_types_of type_class pairs)
  ↔ ∀ t, t ∈ pairs.*1 → is_Some (simple t).
Proof.
  rewrite <- (collect_simple_names_is_Some pairs [] ∅).
  unfold simple_cls_name_to_accepted_types_of.
  destruct (collect_simple_names type_class pairs [] ∅) as [[??]|];
    split; intros [? ?]; by eauto.
Qed.

(** The index does not depend on the order in which the catalogue is
    enumerated. *)
Lemma simple_index_order_irrelevant pairs pairs' :
  NoDup pairs.*1 → pairs ≡ₚ pairs' →
  simple_cls_name_to_accepted_types_of type_class pairs
  = simple_cls_name_to_accepted_types_of type_class pairs'.
Proof.
  intros Hnd Hperm.
  assert (NoDup pairs'.*1) as Hnd' by (by rewrite <- Hperm).
  destruct (simple_cls_name_to_accepted_types_of type_class pairs)
    as [index|] eqn:H1;
    destruct (simple_cls_name_to_accepted_types_of type_class pairs')
      as [index'|] eqn:H2.
  - f_equal. apply map_eq. intros s. apply option_eq. intros t.
    rewrite (simple_index_spec _ _ Hnd H1), (simple_index_spec _ _ Hnd' H2).
    by setoid_rewrite Hperm.
  - assert (is_Some (simple_cls_name_to_accepted_types_of type_class pairs'))
      as [? ?]; [|congruence].
    apply simple_index_is_Some. intros t Ht.
    assert (is_Some (simple_cls_name_to_accepted_types_of type_class pairs))
      as Hsome by (by rewrite H1).
    rewrite simple_index_is_Some in Hsome. apply Hsome. by rewrite Hperm.
  - assert (is_Some (simple_cls_name_to_accepted_types_of type_class pairs))
      as [? ?]; [|congruence].
    apply simple_index_is_Some. intros t Ht.
    assert (is_Some (simple_cls_name_to_accepted_types_of type_class pairs'))
      as Hsome by (by rewrite H2).
    rewrite simple_index_is_Some in Hsome. apply Hsome. by rewrite <- Hperm.
  - done.
Qed.

Lemma accepted_types_spec (framework_cls_to_api : gmap DexType FrameworkAPI)
    index :
  get_simple_cls_name_to_accepted_types type_class framework_cls_to_api
    = Some index →
  ∀ s t, index !! s = Some t
         ↔ is_Some (framework_cls_to_api !! t) ∧ simple t = Some s
           ∧ ∀ t', is_Some (framework_cls_to_api !! t') →
                   simple t' = Some s → t' = t.
Proof.
  unfold get_simple_cls_name_to_accepted_types. intros Hidx s t.
  rewrite (simple_index_spec _ _ (NoDup_fst_map_to_list _) Hidx).
  assert (∀ k, k ∈ (map_to_list framework_cls_to_api).*1
               ↔ is_Some (framework_cls_to_api !! k)) as Hkeys.
  { intros k. rewrite list_elem_of_fmap. split.
    - intros ([k' api] & -> & Hin%elem_of_map_to_list). by exists api.
    - intros [api Hk]. exists (k, api). by rewrite elem_of_map_to_list. }
  by setoid_rewrite Hkeys.
Qed.

End IndexFacts.

(** ** Candidate selection: the scan over the program's classes *)

Section LoadFacts.

Variable type_class : DexType → option DexClass.
Variable type_system : TypeSystem.

Local Abbreviation simple := (get_simple_deobfuscated_name type_class).

(** Every pair the scan adds joins an internal [Landroidx] class of the
    scope with the catalogue entry that the index gives for its simple
    name; moving entries out of the catalogue never changes their class. *)
Lemma load_scope_pairs scope idx names
    (cat m cat' m' : gmap DexType FrameworkAPI) :
  load_scope type_class scope idx names cat m = Some (cat', m') →
  (∀ k, cls <$> cat' !! k = cls <$> cat !! k)
  ∧ ∀ R api, m' !! R = Some api →
      m !! R = Some api
      ∨ ∃ c s fw, c ∈ scope ∧ get_type c = R ∧ is_external c = false
          ∧ String.prefix "Landroidx" (get_deobfuscated_name c) = true
          ∧ simple R = Some s ∧ idx !! s = Some fw
          ∧ cls <$> cat !! fw = Some (cls api).
Proof.
  revert cat m. induction scope as [|c scope IH]; intros cat m; simpl.
  - intros [= <- <-]. split; [done | auto].
  - assert (∀ cat0 m0,
              load_scope type_class scope idx names cat0 m0 = Some (cat', m') →
              (∀ k, cls <$> cat0 !! k = cls <$> cat !! k) →
              (∀ R api, m0 !! R = Some api →
                 m !! R = Some api
                 ∨ ∃ c0 s fw, c0 ∈ c :: scope ∧ get_type c0 = R
                     ∧ is_external c0 = false
                     ∧ String.prefix "Landroidx" (get_deobfuscated_name c0)
                       = true
                     ∧ simple R = Some s ∧ idx !! s = Some fw
                     ∧ cls <$> cat !! fw = Some (cls api)) →
              (∀ k, cls <$> cat' !! k = cls <$> cat !! k)
              ∧ ∀ R api, m' !! R = Some api →
                  m !! R = Some api
                  ∨ ∃ c0 s fw, c0 ∈ c :: scope ∧ get_type c0 = R
                      ∧ is_external c0 = false
                      ∧ String.prefix "Landroidx" (get_deobfuscated_name c0)
                        = true
                      ∧ simple R = Some s ∧ idx !! s = Some fw
                      ∧ cls <$> cat !! fw = Some (cls api)) as Hstep.
    { intros cat0 m0 Hrec Hcat Hm0.
      destruct (IH _ _ Hrec) as [Hcat' Hm']. split.
      - intros k. by rewrite Hcat', Hcat.
      - intros R api HR. destruct (Hm' R api HR) as [?|Hnew]; [auto|].
        destruct Hnew as (c0 & s & fw & ? & ? & ? & ? & ? & ? & Hfw).
        right. exists c0, s, fw. split_and!; try done.
        + rewrite elem_of_cons. by right.
        + by rewrite <- Hcat. }
    destruct (is_external c) eqn:Hext; [intros H; by apply (Hstep _ _ H); auto|].
    destruct (String.prefix "Landroidx" (get_deobfuscated_name c)) eqn:Hpre;
      [|intros H; by apply (Hstep _ _ H); auto].
    destruct (simple (get_type c)) as [s|] eqn:Hs; [|done].
    destruct (idx !! s) as [fw|] eqn:Hidx;
      [|intros H; by apply (Hstep _ _ H); auto].
    case_decide; [done|].
    destruct (cat !! fw) as [api0|] eqn:Hfw; [|done].
    intros Hrun. apply (Hstep _ _ Hrun).
    + intros k. destruct (decide (fw = k)) as [<-|?].
      * by rewrite lookup_insert_eq, Hfw.
      * by rewrite lookup_insert_ne.
    + intros R api [[<- <-]|[? ?]]%lookup_insert_Some; [|auto].
      right. exists c, s, fw. split_and!; try done.
      * rewrite elem_of_cons. by left.
      * by rewrite Hfw.
Qed.


(** After loading, every pair of the mapping joins its release class with
    a framework class that the index holds under some simple name. *)
Lemma load_types_pairs fuel scope (cat m : gmap DexType FrameworkAPI) :
  (∀ k api, cat !! k = Some api → cls api = k) →
  load_types_to_framework_api type_class type_system fuel scope cat ∅
    = Done m →
  ∃ index,
    get_simple_cls_name_to_accepted_types type_class cat = Some index
    ∧ ∀ R api, m !! R = Some api →
        ∃ s, simple R = Some s ∧ index !! s = Some (cls api).
Proof.
  intros Hwf. unfold load_types_to_framework_api.
  destruct (get_simple_cls_name_to_accepted_types type_class cat)
    as [index|] eqn:Hindex; [|done].
  destruct (load_scope type_class scope index ∅ cat ∅) as [[cat' m0]|]
    eqn:Hload; [|done].
  intros [Hsub _]%resolve_Done. exists index. split; [done|].
  intros R api HR.
  apply load_scope_pairs in Hload as [_ Hm0].
  destruct (Hm0 R api) as [?|Hnew];
    [by eapply lookup_weaken | by apply lookup_empty_Some in H |].
  destruct Hnew as (c & s & fw & _ & _ & _ & _ & Hs & Hidx & Hfw).
  exists s. split; [done|].
  destruct (cat !! fw) as [api0|] eqn:Hapi0; [|done].
  simpl in Hfw. injection Hfw as Hcls.
  by rewrite <- Hcls, (Hwf _ _ Hapi0).
Qed.

End LoadFacts.

(** C5. Take two different classes of a catalogue with the same simple
    name.  Whatever the order in which the catalogue is enumerated, the
    index has no entry for that name and holds neither class under any
    name.  When the catalogue's entries carry their own key as class, as
    the loader builds them, no pair of the mapping that loading produces
    joins a release class with either of the two. *)
Theorem ambiguous_simple_names_are_excluded :
  ∀ (type_class : DexType → option DexClass) (type_system : TypeSystem)
    (framework_cls_to_api : gmap DexType FrameworkAPI)
    (t1 t2 : DexType) (s : string),
    is_Some (framework_cls_to_api !! t1) →
    is_Some (framework_cls_to_api !! t2) →
    t1 ≠ t2 →
    get_simple_deobfuscated_name type_class t1 = Some s →
    get_simple_deobfuscated_name type_class t2 = Some s →
    (∀ pairs index,
       pairs ≡ₚ map_to_list framework_cls_to_api →
       simple_cls_name_to_accepted_types_of type_class pairs = Some index →
       index !! s = None
       ∧ ∀ s', index !! s' ≠ Some t1 ∧ index !! s' ≠ Some t2)
    ∧ ((∀ k api, framework_cls_to_api !! k = Some api → cls api = k) →
       ∀ fuel m_scope m R api,
         load_types_to_framework_api type_class type_system fuel m_scope
           framework_cls_to_api ∅ = Done m →
         m !! R = Some api → cls api ≠ t1 ∧ cls api ≠ t2).
Proof.
  intros tc ts cat t1 t2 s H1 H2 Hne Hs1 Hs2.
  assert (∀ index,
            get_simple_cls_name_to_accepted_types tc cat = Some index →
            index !! s = None
            ∧ ∀ s', index !! s' ≠ Some t1 ∧ index !! s' ≠ Some t2) as Hkey.
  { intros index Hindex.
    pose proof (accepted_types_spec tc cat index Hindex) as Hspec.
    assert (index !! s = None) as Hnone.
    { destruct (index !! s) as [t|] eqn:Hl; [exfalso | done].
      apply Hspec in Hl as (_ & _ & Huniq).
      apply Hne. by rewrite (Huniq t1 H1 Hs1), (Huniq t2 H2 Hs2). }
    split; [done|]. intros s'.
    split; intros Hl; pose proof Hl as (_ & Hs' & _)%Hspec;
      (assert (s' = s) as -> by congruence); congruence. }
  split.
  - intros pairs index Hperm Hindex. apply Hkey.
    unfold get_simple_cls_name_to_accepted_types.
    rewrite <- Hindex. symmetry. apply simple_index_order_irrelevant; [|done].
    rewrite Hperm. apply NoDup_fst_map_to_list.
  - intros Hwf fuel scope m R api Hload HR.
    destruct (load_types_pairs tc ts fuel scope cat m Hwf Hload)
      as (index & Hindex & Hpairs).
    destruct (Hpairs R api HR) as (s' & _ & Hl).
    destruct (Hkey index Hindex) as [_ Hnot].
    destruct (Hnot s') as [? ?]. split; congruence.
Qed.

(** ** The definitions at work on the example program *)

Section ExampleFacts.

Import Example.

Local Abbreviation tc := (class_table scope).

Lemma example_mapping_converged : converged tc type_system mapping.
Proof. apply scan_empty_iff_converged. vm_compute. reflexivity. Defined.

Lemma example_catalogue_well_formed :
  ∀ k api, ambiguous_catalogue !! k = Some api → cls api = k.
Proof.
  apply (bool_decide_unpack
           (map_Forall (λ k api, cls api = k) ambiguous_catalogue)).
  vm_compute. exact I.
Defined.

(** The non-public [hidden()] of [Base] has no counterpart in the
    framework class, and the pair passes all the same. *)
Example non_public_member_is_ignored :
  check_members base_cls fw_base_api ∅ = true
  ∧ find_method "hidden" void_proto (mrefs fw_base_api) = false.
Proof. by vm_compute. Qed.

(** A public method without counterpart excludes the pair. *)
Example missing_public_member_excludes :
  check_members base_cls fw_twin_api ∅ = false.
Proof. by vm_compute. Qed.

(** [Child] mentions [Base] in its members: it passes against an index that
    maps [Base] and fails against the empty index. *)
Example member_check_substitutes :
  check_members child_cls fw_child_api (release_to_framework_of mapping) = true
  ∧ check_members child_cls fw_child_api ∅ = false.
Proof. by vm_compute. Qed.

(** [Base] implementing the internal interface [Helper] passes the
    hierarchy check only against an index that has [Helper] as a key;
    implementing a type without class definition never hurts. *)
Example unmapped_internal_interface_excludes :
  check_hierarchy tc (base_implements {[Rel_Helper]}) base_cls fw_base_api ∅
  = false
  ∧ check_hierarchy tc (base_implements {[Rel_Helper]}) base_cls fw_base_api
      {[Rel_Helper := Fw_Base]} = true
  ∧ check_hierarchy tc (base_implements {[Ghost]}) base_cls fw_base_api ∅
    = true.
Proof. by vm_compute. Qed.

(** A superclass that is neither the root object type nor a key. *)
Example unmapped_superclass_excludes :
  check_hierarchy tc type_system child_cls fw_child_api ∅ = false
  ∧ check_hierarchy tc type_system child_cls fw_child_api
      (release_to_framework_of mapping) = true.
Proof. by vm_compute. Qed.

Example resolver_keeps_valid_pairs :
  resolver_loop tc type_system 3 mapping = Done (mapping, 1).
Proof. vm_compute. reflexivity. Qed.

Example resolver_two_iterations_on_one_pair :
  resolver_loop tc type_system 2 child_only = Done (∅, 2)
  ∧ size child_only = 1.
Proof. vm_compute. split; reflexivity. Qed.

Example ambiguous_index :
  get_simple_cls_name_to_accepted_types tc ambiguous_catalogue
  = Some {["Child" := Fw_Child]}.
Proof. vm_compute. reflexivity. Qed.

End ExampleFacts.

(** C1, on the example: both pairs survive and pass both checks. *)
Lemma resolver_survivors_pass_both_checks_witness :
  check_and_update_release_to_framework
    (Example.class_table Example.scope) Example.type_system 3 Example.mapping
  = Done Example.mapping
  ∧ (dom (release_to_framework_of Example.mapping) = dom Example.mapping
     ∧ ∀ R F, Example.mapping !! R = Some F →
         ∃ c, Example.class_table Example.scope R = Some c
           ∧ check_members c F (release_to_framework_of Example.mapping)
             = true
           ∧ check_hierarchy (Example.class_table Example.scope)
               Example.type_system c F
               (release_to_framework_of Example.mapping) = true
           ∧ members_compatible c F (release_to_framework_of Example.mapping)
           ∧ hierarchy_compatible (Example.class_table Example.scope)
               Example.type_system c
               (release_to_framework_of Example.mapping)
           ∧ (external_type (Example.class_table Example.scope)
                java_lang_Object →
              is_interface c = false →
              ∃ s, get_super_class c = Some s
                   ∧ external_or_key (Example.class_table Example.scope)
                       (release_to_framework_of Example.mapping) s)).
Proof.
  split; [vm_compute; reflexivity|].
  apply (resolver_survivors_pass_both_checks
           (Example.class_table Example.scope) Example.type_system 3
           Example.mapping Example.mapping).
  vm_compute. reflexivity.
Defined.

(** C5, on the example: [Landroid/app/Base;] and [Landroid/widget/Base;]
    both claim the simple name [Base]. *)
Lemma ambiguous_simple_names_are_excluded_witness :
  is_Some (Example.ambiguous_catalogue !! Example.Fw_Base)
  ∧ is_Some (Example.ambiguous_catalogue !! Example.Fw_Twin)
  ∧ Example.Fw_Base ≠ Example.Fw_Twin
  ∧ get_simple_deobfuscated_name (Example.class_table Example.scope)
      Example.Fw_Base = Some "Base"
  ∧ get_simple_deobfuscated_name (Example.class_table Example.scope)
      Example.Fw_Twin = Some "Base"
  ∧ (∀ pairs index,
       pairs ≡ₚ map_to_list Example.ambiguous_catalogue →
       simple_cls_name_to_accepted_types_of
         (Example.class_table Example.scope) pairs = Some index →
       index !! "Base" = None
       ∧ ∀ s', index !! s' ≠ Some Example.Fw_Base
               ∧ index !! s' ≠ Some Example.Fw_Twin)
  ∧ (∀ fuel m_scope m R api,
       load_types_to_framework_api (Example.class_table Example.scope)
         Example.type_system fuel m_scope Example.ambiguous_catalogue ∅
       = Done m →
       m !! R = Some api →
       cls api ≠ Example.Fw_Base ∧ cls api ≠ Example.Fw_Twin).
Proof.
  assert (is_Some (Example.ambiguous_catalogue !! Example.Fw_Base)) as H1
    by (vm_compute; eauto).
  assert (is_Some (Example.ambiguous_catalogue !! Example.Fw_Twin)) as H2
    by (vm_compute; eauto).
  assert (Example.Fw_Base ≠ Example.Fw_Twin) as Hne by (vm_compute; congruence).
  split; [exact H1|]. split; [exact H2|]. split; [exact Hne|].
  split; [reflexivity|]. split; [reflexivity|].
  destruct (ambiguous_simple_names_are_excluded
              (Example.class_table Example.scope) Example.type_system
              Example.ambiguous_catalogue Example.Fw_Base Example.Fw_Twin
              "Base" H1 H2 Hne eq_refl eq_refl) as [Hindex Hload].
  split; [exact Hindex | exact (Hload example_catalogue_well_formed)].
Defined.

(** C6, on the example: filtering [Base] out of the two-pair mapping. *)
Lemma mapping_never_grows_witness :
  filter_types (Example.class_table Example.scope) Example.type_system 3
    {[Example.Rel_Base]} Example.mapping = Done ∅
  ∧ dom (∅ : gmap DexType FrameworkAPI) ⊆ dom Example.mapping
  ∧ size (∅ : gmap DexType FrameworkAPI) ≤ size Example.mapping.
Proof.
  assert (filter_types (Example.class_table Example.scope)
            Example.type_system 3 {[Example.Rel_Base]} Example.mapping
          = Done ∅) as Hrun by (vm_compute; reflexivity).
  split; [exact Hrun|].
  exact (proj2 (proj2 (mapping_never_grows
                         (Example.class_table Example.scope)
                         Example.type_system))
           3 {[Example.Rel_Base]} Example.mapping ∅ Hrun).
Defined.

(** C7, as the claim words it, fails: a mapping of one pair whose class
    extends an unmapped class takes two iterations, one that removes the
    pair and one that halts. *)
Lemma resolver_iterations_not_bounded_by_size :
  ¬ (∀ (type_class : DexType → option DexClass) (type_system : TypeSystem)
       (fuel : nat) (m m' : gmap DexType FrameworkAPI) (iterations : nat),
       resolver_loop type_class type_system fuel m = Done (m', iterations) →
       iterations ≤ size m).
Proof.
  intros Hbound.
  specialize (Hbound (Example.class_table Example.scope) Example.type_system
                2 Example.child_only ∅ 2).
  assert (2 ≤ size Example.child_only) as Hle
    by (apply Hbound; vm_compute; reflexivity).
  vm_compute in Hle. lia.
Qed.

(** C9, on the example. *)
Lemma resolver_idempotent_witness :
  converged (Example.class_table Example.scope) Example.type_system
    Example.mapping
  ∧ check_and_update_release_to_framework
      (Example.class_table Example.scope) Example.type_system 1
      Example.mapping
    = Done Example.mapping.
Proof.
  split; [exact example_mapping_converged|].
  exact (proj1 (resolver_idempotent (Example.class_table Example.scope)
                  Example.type_system)
           Example.mapping 0 example_mapping_converged).
Defined.

(** C10, on the example: [Ghost] has no class definition and is not a key
    of the (empty) index. *)
Lemma unresolved_hierarchy_types_are_accepted_witness :
  (∀ t, t ∈ ({[Example.Ghost]} : gset string) →
        Example.class_table Example.scope t = None)
  ∧ check_if_present (Example.class_table Example.scope)
      {[Example.Ghost]} ∅ = true
  ∧ check_hierarchy (Example.class_table Example.scope)
      (with_extra_hierarchy_types Example.type_system
         (get_type Example.base_cls) {[Example.Ghost]})
      Example.base_cls Example.fw_base_api ∅
    = check_hierarchy (Example.class_table Example.scope) Example.type_system
        Example.base_cls Example.fw_base_api ∅.
Proof.
  assert (∀ t, t ∈ ({[Example.Ghost]} : gset string) →
               Example.class_table Example.scope t = None) as Hghost
    by (intros t ->%elem_of_singleton; reflexivity).
  split; [exact Hghost|].
  exact (unresolved_hierarchy_types_are_accepted
           (Example.class_table Example.scope) Example.type_system
           Example.base_cls Example.fw_base_api ∅ {[Example.Ghost]} Hghost).
Defined.

(** C2. Two internal release classes, [Landroidx/core/Base;] and
    [Landroidx/legacy/Base;], share the simple name [Base], which the index
    holds.  Loading does not abort: it returns a mapping in which both are
    paired with [Landroid/app/Base;], the second with the emptied entry
    that the first left behind in the catalogue. *)
Theorem duplicate_release_simple_name_is_not_rejected :
  get_simple_deobfuscated_name (Example.class_table Example.twin_scope)
    Example.Rel_Base = Some "Base"
  ∧ get_simple_deobfuscated_name (Example.class_table Example.twin_scope)
      Example.Rel_Twin = Some "Base"
  ∧ Example.Rel_Base ≠ Example.Rel_Twin
  ∧ (∃ index,
       get_simple_cls_name_to_accepted_types
         (Example.class_table Example.twin_scope) Example.catalogue
       = Some index
       ∧ index !! "Base" = Some Example.Fw_Base)
  ∧ load_types_to_framework_api (Example.class_table Example.twin_scope)
      Example.type_system 3 Example.twin_scope Example.catalogue ∅
    = Done (<[Example.Rel_Base := Example.fw_base_api]>
              (<[Example.Rel_Twin := moved_from Example.fw_base_api]> ∅)).
Proof.
  split; [reflexivity|]. split; [reflexivity|].
  split; [vm_compute; congruence|].
  split; [eexists; split; vm_compute; reflexivity|].
  vm_compute. reflexivity.
Qed.

(** * Further properties of the code *)

(** ** Simple names: strings *)

Lemma rfind_None c s :
  rfind c s = None ↔ c ∉ list_ascii_of_string s.
Proof.
  induction s as [|a s IH]; simpl.
  - split; [intros _; apply not_elem_of_nil | done].
  - rewrite not_elem_of_cons.
    destruct (rfind c s) as [i|].
    + split; [done|]. intros [_ Hs]. by apply IH in Hs.
    + destruct (Ascii.eqb_spec a c) as [->|Hne].
      * split; [done | by intros [? _]].
      * split; [|done]. intros _. split; [congruence | by apply IH].
Qed.

Lemma rfind_last c (pre rest : string) :
  c ∉ list_ascii_of_string rest →
  rfind c (pre +:+ String c rest) = Some (String.length pre).
Proof.
  intros Hrest%rfind_None.
  induction pre as [|a pre IH]; simpl.
  - by rewrite Hrest, Ascii.eqb_refl.
  - by rewrite IH.
Qed.

Lemma rfind_Some c s pos :
  rfind c s = Some pos →
  ∃ pre rest, s = pre +:+ String c rest ∧ String.length pre = pos
              ∧ c ∉ list_ascii_of_string rest.
Proof.
  revert pos. induction s as [|a s IH]; intros pos; simpl; [done|].
  destruct (rfind c s) as [i|] eqn:Hs.
  - intros [= <-]. destruct (IH i eq_refl) as (pre & rest & -> & <- & Hrest).
    by exists (String a pre), rest.
  - destruct (Ascii.eqb_spec a c) as [->|Hne]; [|done].
    intros [= <-]. exists "", s. split_and!; [done | done |].
    by apply rfind_None.
Qed.

Lemma string_length_app (a b : string) :
  String.length (a +:+ b) = String.length a + String.length b.
Proof. induction a as [|x a IH]; simpl; [done | by rewrite IH]. Qed.

Lemma substring_skip (pre s : string) n :
  substring (String.length pre) n (pre +:+ s) = substring 0 n s.
Proof. induction pre as [|x pre IH]; simpl; [done | exact IH]. Qed.

Lemma substring_take (a b : string) :
  substring 0 (String.length a) (a +:+ b) = a.
Proof.
  induction a as [|x a IH]; simpl.
  - by destruct b.
  - by rewrite IH.
Qed.

Lemma substring_zero n (s : string) : substring n 0 s = "".
Proof.
  revert n. induction s as [|x s IH]; intros [|n]; simpl; auto.
Qed.

Lemma list_ascii_of_string_app (a b : string) :
  list_ascii_of_string (a +:+ b)
  = list_ascii_of_string a ++ list_ascii_of_string b.
Proof. induction a as [|x a IH]; simpl; [done | by rewrite IH]. Qed.

Lemma substring_chars n k (s : string) c :
  c ∈ list_ascii_of_string (substring n k s) → c ∈ list_ascii_of_string s.
Proof.
  revert n k. induction s as [|x s IH]; intros n k; simpl.
  - by destruct n, k.
  - destruct n as [|n].
    + destruct k as [|k]; simpl; [by intros ?%elem_of_nil|].
      rewrite !elem_of_cons. intros [?|?]; [by left | right; by eapply IH].
    + intros ?. rewrite elem_of_cons. right. by eapply IH.
Qed.

Lemma substring_after (pre s : string) c n :
  substring (S (String.length pre)) n (pre +:+ String c s) = substring 0 n s.
Proof. induction pre as [|x pre IH]; simpl; [done | exact IH]. Qed.

(** X1. A name of the form [pre/name;], where neither [name] nor the last
    character holds a slash, has the simple name [name]: everything up to
    the last slash and the one closing character are dropped. *)
Theorem simple_name_of_descriptor :
  ∀ (type_class : DexType → option DexClass) (type : DexType)
    (pre name : string) (last : ascii),
    full_name_of type_class type
      = pre +:+ String "/" (name +:+ String last "") →
    "/"%char ∉ list_ascii_of_string name →
    last ≠ "/"%char →
    (Z.of_nat (String.length (full_name_of type_class type)) < 2 ^ 64)%Z →
    get_simple_deobfuscated_name type_class type = Some name.
Proof.
  intros tc t pre name last Hfull Hname Hlast Hsize.
  unfold get_simple_deobfuscated_name. rewrite Hfull in *.
  rewrite rfind_last; cycle 1.
  { rewrite list_ascii_of_string_app, elem_of_app. simpl.
    rewrite list_elem_of_singleton. intros [?|?]; [done | congruence]. }
  f_equal. unfold substr, size_t_wrap.
  rewrite string_length_app in *. simpl in *.
  rewrite string_length_app in *. simpl in *.
  rewrite Z.mod_small by lia.
  replace (String.length pre + 1) with (S (String.length pre)) by lia.
  rewrite substring_after.
  replace (Z.to_nat _) with (String.length name) by lia.
  apply substring_take.
Qed.

(** X2. When the last slash is the final character of the name, the length
    handed to [substr] wraps around below zero and is clipped: the simple
    name is the empty string, and nothing fails. *)
Theorem simple_name_of_trailing_slash :
  ∀ (type_class : DexType → option DexClass) (type : DexType) (pre : string),
    full_name_of type_class type = pre +:+ "/" →
    get_simple_deobfuscated_name type_class type = Some "".
Proof.
  intros tc t pre Hfull.
  unfold get_simple_deobfuscated_name. rewrite Hfull.
  rewrite rfind_last by (simpl; apply not_elem_of_nil).
  f_equal. unfold substr, size_t_wrap.
  rewrite string_length_app. simpl.
  replace (Z.to_nat _) with 0; [apply substring_zero|].
  replace (Z.of_nat (String.length pre + 1) - Z.of_nat (String.length pre) - 2)%Z
    with (-1)%Z by lia.
  change ((-1) mod 2 ^ 64)%Z with (2 ^ 64 - 1)%Z. lia.
Qed.

(** X3. Taking the simple name fails, on the [always_assert], exactly for
    a name without any slash. *)
Theorem simple_name_fails_iff_no_slash :
  ∀ (type_class : DexType → option DexClass) (type : DexType),
    get_simple_deobfuscated_name type_class type = None
    ↔ "/"%char ∉ list_ascii_of_string (full_name_of type_class type).
Proof.
  intros tc t. rewrite <- rfind_None.
  unfold get_simple_deobfuscated_name.
  by destruct (rfind "/" (full_name_of tc t)).
Qed.

(** X4. A simple name never holds a slash. *)
Theorem simple_name_has_no_slash :
  ∀ (type_class : DexType → option DexClass) (type : DexType) (s : string),
    get_simple_deobfuscated_name type_class type = Some s →
    "/"%char ∉ list_ascii_of_string s.
Proof.
  intros tc t s. unfold get_simple_deobfuscated_name.
  destruct (rfind "/" (full_name_of tc t)) as [pos|] eqn:Hpos; [|done].
  apply rfind_Some in Hpos as (pre & rest & -> & <- & Hrest).
  intros [= <-]. unfold substr.
  replace (String.length pre + 1) with (S (String.length pre)) by lia.
  rewrite substring_after. intros Hin. by apply substring_chars in Hin.
Qed.

Lemma simple_name_of_descriptor_witness :
  full_name_of (λ _, None) "Lcom/facebook/something/ClassName$Foo;"
    = ("Lcom/facebook/something"
       +:+ String "/" ("ClassName$Foo" +:+ String ";" ""))
  ∧ ("/"%char ∉ list_ascii_of_string "ClassName$Foo")
  ∧ ";"%char ≠ "/"%char
  ∧ (Z.of_nat (String.length
        (full_name_of (λ _, None) "Lcom/facebook/something/ClassName$Foo;"))
     < 2 ^ 64)%Z
  ∧ get_simple_deobfuscated_name (λ _, None)
      "Lcom/facebook/something/ClassName$Foo;" = Some "ClassName$Foo".
Proof.
  assert ("/"%char ∉ list_ascii_of_string "ClassName$Foo") as Hname
    by (apply rfind_None; reflexivity).
  assert (";"%char ≠ "/"%char) as Hlast by discriminate.
  assert (Z.of_nat (String.length
            (full_name_of (λ _, None) "Lcom/facebook/something/ClassName$Foo;"))
          < 2 ^ 64)%Z as Hsize by (vm_compute; reflexivity).
  split; [reflexivity|]. split; [exact Hname|]. split; [exact Hlast|].
  split; [exact Hsize|].
  exact (simple_name_of_descriptor (λ _, None)
           "Lcom/facebook/something/ClassName$Foo;"
           "Lcom/facebook/something" "ClassName$Foo" ";"
           eq_refl Hname Hlast Hsize).
Defined.

Lemma simple_name_of_trailing_slash_witness :
  full_name_of (λ _, None) "Lcom/" = ("Lcom" +:+ "/")
  ∧ get_simple_deobfuscated_name (λ _, None) "Lcom/" = Some "".
Proof.
  split; [reflexivity|].
  exact (simple_name_of_trailing_slash (λ _, None) "Lcom/" "Lcom" eq_refl).
Defined.

Lemma simple_name_has_no_slash_witness :
  get_simple_deobfuscated_name (Example.class_table Example.scope)
    Example.Rel_Child = Some "Child"
  ∧ "/"%char ∉ list_ascii_of_string "Child".
Proof.
  split; [reflexivity|].
  exact (simple_name_has_no_slash (Example.class_table Example.scope)
           Example.Rel_Child "Child" eq_refl).
Defined.

(** ** Member check: what it depends on *)

Lemma method_counterpart_signature api rtf meth :
  method_has_counterpart api rtf meth
  ↔ (mref_name (meth_ref meth),
     get_new_proto (mref_proto (meth_ref meth)) rtf) ∈ method_signatures api.
Proof.
  rewrite <- method_counterpart_found, find_method_true.
  unfold method_signatures. rewrite list_elem_of_fmap. split.
  - intros (r & ? & <- & <-). by exists r.
  - intros (r & [= -> ->] & ?). by exists r.
Qed.

Lemma field_counterpart_signature api rtf field :
  field_has_counterpart api rtf field
  ↔ (fref_name (field_ref field),
     substitute_type rtf (fref_type (field_ref field))) ∈ field_signatures api.
Proof.
  unfold field_has_counterpart, field_signatures.
  rewrite list_elem_of_fmap. split.
  - intros (r & ? & <- & <-). by exists r.
  - intros (r & [= -> ->] & ?). by exists r.
Qed.

(** X5. The member check reads a descriptor only through the names and
    signatures of its methods and the names and types of its fields: a
    pair that passes keeps passing against any descriptor offering at least
    those, whichever class declares them and in whatever order or number
    they are listed. *)
Theorem member_check_monotone_in_descriptor :
  ∀ (c : DexClass) (api api' : FrameworkAPI)
    (release_to_framework : gmap DexType DexType),
    (∀ sig, sig ∈ method_signatures api → sig ∈ method_signatures api') →
    (∀ sig, sig ∈ field_signatures api → sig ∈ field_signatures api') →
    check_members c api release_to_framework = true →
    check_members c api' release_to_framework = true.
Proof.
  intros c api api' rtf Hm Hf. rewrite !check_members_true.
  intros [Hmeths Hfields]. split.
  - intros meth Hin Hpub. apply method_counterpart_signature, Hm.
    apply method_counterpart_signature. auto.
  - intros field Hin Hpub. apply field_counterpart_signature, Hf.
    apply field_counterpart_signature. auto.
Qed.

Lemma public_member_types_method c meth t :
  meth ∈ get_dmethods c ++ get_vmethods c → meth_public meth = true →
  t ∈ method_types meth → t ∈ public_member_types c.
Proof.
  intros Hin Hpub Ht. unfold public_member_types.
  rewrite elem_of_app. left. apply list_elem_of_bind.
  exists meth. split; [done|]. by apply list_elem_of_filter.
Qed.

Lemma public_member_types_field c field :
  field ∈ get_sfields c ++ get_ifields c → field_public field = true →
  fref_type (field_ref field) ∈ public_member_types c.
Proof.
  intros Hin Hpub. unfold public_member_types.
  rewrite elem_of_app. right. apply list_elem_of_fmap.
  exists field. split; [done|]. by apply list_elem_of_filter.
Qed.

Lemma members_compatible_agree c api (rtf rtf' : gmap DexType DexType) :
  (∀ t, t ∈ public_member_types c → rtf !! t = rtf' !! t) →
  members_compatible c api rtf → members_compatible c api rtf'.
Proof.
  intros Hagree [Hmeths Hfields].
  assert (∀ t, t ∈ public_member_types c →
               substitute_type rtf t = substitute_type rtf' t) as Hsub
    by (intros t Ht; unfold substitute_type; by rewrite (Hagree t Ht)).
  split.
  - intros meth Hin Hpub.
    destruct (Hmeths meth Hin Hpub) as (r & ? & ? & Hr & Ha).
    exists r. split_and!; try done.
    + rewrite Hr. apply Hsub.
      eapply public_member_types_method; [done | done |].
      unfold method_types. rewrite elem_of_cons. by left.
    + rewrite Ha. apply list_fmap_ext. intros i t Hi. apply Hsub.
      eapply public_member_types_method; [done | done |].
      unfold method_types. rewrite elem_of_cons. right.
      by eapply list_elem_of_lookup_2.
  - intros field Hin Hpub.
    destruct (Hfields field Hin Hpub) as (r & ? & ? & Hr).
    exists r. split_and!; try done.
    rewrite Hr. apply Hsub. by apply public_member_types_field.
Qed.

(** X6. The member check reads the index only at the types that the
    public members of the class mention: two indexes that agree on those
    types give the same result. *)
Theorem member_check_reads_index_at_mentioned_types :
  ∀ (c : DexClass) (api : FrameworkAPI)
    (release_to_framework release_to_framework' : gmap DexType DexType),
    (∀ t, t ∈ public_member_types c →
          release_to_framework !! t = release_to_framework' !! t) →
    check_members c api release_to_framework
    = check_members c api release_to_framework'.
Proof.
  intros c api rtf rtf' Hagree. apply eq_true_iff_eq.
  rewrite !check_members_true.
  split; apply members_compatible_agree; [done|].
  intros t Ht. symmetry. by apply Hagree.
Qed.

(** ** Hierarchy check: what it depends on *)

(** X7. The hierarchy check reads the index only through its key set and
    never looks at the framework descriptor: a class that passes against
    one index passes, with any descriptor, against every index holding at
    least the same keys. *)
Theorem hierarchy_check_monotone_in_keys :
  ∀ (type_class : DexType → option DexClass) (type_system : TypeSystem)
    (c : DexClass) (api api' : FrameworkAPI)
    (release_to_framework release_to_framework' : gmap DexType DexType),
    dom release_to_framework ⊆ dom release_to_framework' →
    check_hierarchy type_class type_system c api release_to_framework = true →
    check_hierarchy type_class type_system c api' release_to_framework'
    = true.
Proof.
  intros tc ts c api api' rtf rtf' Hdom. rewrite !check_hierarchy_true.
  assert (∀ t, is_Some (rtf !! t) → is_Some (rtf' !! t)) as Hkeys.
  { intros t Ht. apply elem_of_dom, Hdom, elem_of_dom, Ht. }
  unfold hierarchy_compatible, external_or_key, root_or_key.
  destruct (is_interface c).
  - intros H t Ht. destruct (H t Ht); auto.
  - intros [H (s & Hs & Hok)]. split.
    + intros t Ht. destruct (H t Ht); auto.
    + exists s. split; [done|]. destruct Hok; auto.
Qed.

(** X8. In a converged mapping the superclass chain of every key stays
    inside the mapping: walking up from a key through concrete classes,
    every class met below the root object type is a key as well. *)
Theorem converged_superclass_chain :
  ∀ (type_class : DexType → option DexClass) (type_system : TypeSystem)
    (m : gmap DexType FrameworkAPI) (n : nat) (type ancestor : DexType),
    converged type_class type_system m →
    is_Some (m !! type) →
    nth_superclass type_class n type = Some ancestor →
    is_Some (m !! ancestor).
Proof.
  intros tc ts m n. induction n as [|n IH]; intros t a Hconv Ht; simpl.
  - by intros [= <-].
  - destruct Ht as [api Ht]. pose proof (Hconv t api Ht) as Hpass.
    unfold pair_passes in Hpass.
    destruct (tc t) as [c|]; [|done].
    apply andb_true_iff in Hpass as [_ Hhier].
    destruct (is_interface c) eqn:Hintf; [done|].
    apply check_hierarchy_true in Hhier.
    unfold hierarchy_compatible in Hhier. rewrite Hintf in Hhier.
    destruct Hhier as [_ (s & Hs & Hok)]. rewrite Hs.
    case_decide as Hroot; [done|].
    destruct Hok as [?|Hkey]; [done|].
    apply IH; [done|].
    unfold release_to_framework_of in Hkey.
    rewrite lookup_fmap in Hkey. by apply fmap_is_Some in Hkey.
Qed.

(** ** The resolver: passes, failure and what survives *)

Section ResolverMore.

Variable type_class : DexType → option DexClass.
Variable type_system : TypeSystem.

Local Abbreviation collect := (collect_to_remove type_class type_system).
Local Abbreviation passes := (pair_passes type_class type_system).
Local Abbreviation resolve :=
  (check_and_update_release_to_framework type_class type_system).

Lemma check_hierarchy_more_keys c api api' (rtf rtf' : gmap DexType DexType) :
  (∀ t, is_Some (rtf !! t) → is_Some (rtf' !! t)) →
  check_hierarchy type_class type_system c api rtf = true →
  check_hierarchy type_class type_system c api' rtf' = true.
Proof.
  intros Hkeys. rewrite !check_hierarchy_true.
  unfold hierarchy_compatible, external_or_key, root_or_key.
  destruct (is_interface c).
  - intros H t Ht. destruct (H t Ht); auto.
  - intros [H (s & Hs & Hok)]. split.
    + intros t Ht. destruct (H t Ht); auto.
    + exists s. split; [done|]. destruct Hok; auto.
Qed.

Lemma resolve_first_scan fuel (m : gmap DexType FrameworkAPI) :
  collect (map_to_list m) (release_to_framework_of m) ∅ = None →
  resolve (S fuel) m = Abort.
Proof.
  intros Hscan. unfold check_and_update_release_to_framework. simpl.
  by rewrite Hscan.
Qed.

(** A sub-mapping whose pairs pass against the index of every mapping
    between it and [m] is never cut into by the loop. *)
Lemma resolver_loop_keeps fuel (m m' result : gmap DexType FrameworkAPI) n :
  (∀ (mid : gmap DexType FrameworkAPI), m' ⊆ mid → mid ⊆ m →
     ∀ t api, m' !! t = Some api →
       passes (release_to_framework_of mid) t api = true) →
  m' ⊆ m →
  resolver_loop type_class type_system fuel m = Done (result, n) →
  m' ⊆ result.
Proof.
  revert m n. induction fuel as [|fuel IH]; intros m n Hstable Hsub; [done|].
  simpl.
  destruct (collect (map_to_list m) (release_to_framework_of m) ∅)
    as [to_remove|] eqn:Hscan; [|done].
  destruct (decide (to_remove = ∅)); [by intros [= <- <-]|].
  destruct (resolver_loop type_class type_system fuel
              (erase_all (elements to_remove) m)) as [[m'' k]| |] eqn:Hrec;
    [|done|done].
  intros [= <- <-]. eapply IH; [| |exact Hrec].
  - intros mid Hlow Hhigh. apply Hstable; [done|].
    etrans; [exact Hhigh | apply erase_all_subseteq].
  - apply map_subseteq_spec. intros t api Ht.
    apply (scan_erase_lookup type_class type_system _ _ _ _ _ Hscan).
    split; [by eapply lookup_weaken | by apply (Hstable m)].
Qed.

End ResolverMore.

(** X9. One pass judges every pair against the same snapshot of the
    index, whatever the order in which the map hands out its pairs and
    whatever the pass has marked so far: the pairs left after the removal
    step are exactly those of the mapping that pass both checks against the
    index taken at the start of the pass. *)
Theorem pass_judges_against_snapshot :
  ∀ (type_class : DexType → option DexClass) (type_system : TypeSystem)
    (m : gmap DexType FrameworkAPI) (pairs : list (DexType * FrameworkAPI))
    (to_remove : gset string),
    pairs ≡ₚ map_to_list m →
    collect_to_remove type_class type_system pairs
      (release_to_framework_of m) ∅ = Some to_remove →
    ∀ t api,
      erase_all (elements to_remove) m !! t = Some api
      ↔ m !! t = Some api
        ∧ pair_passes type_class type_system (release_to_framework_of m)
            t api = true.
Proof.
  intros tc ts m pairs S Hperm Hscan t api.
  apply (scan_erase_lookup tc ts).
  rewrite <- Hscan. by apply collect_to_remove_order_irrelevant.
Qed.

(** X10. The resolver fails exactly when some key of the mapping has no
    class definition, and it does so in its first pass. *)
Theorem resolver_aborts_iff_key_without_class :
  ∀ (type_class : DexType → option DexClass) (type_system : TypeSystem)
    (fuel : nat) (m : gmap DexType FrameworkAPI),
    check_and_update_release_to_framework type_class type_system (S fuel) m
      = Abort
    ↔ ∃ t, is_Some (m !! t) ∧ type_class t = None.
Proof.
  intros tc ts fuel m. split; [apply resolve_Abort|].
  intros (t & [api Ht] & Hnone). apply resolve_first_scan.
  destruct (collect_to_remove tc ts (map_to_list m)
              (release_to_framework_of m) ∅) as [S|] eqn:Hscan; [|done].
  apply collect_to_remove_Some in Hscan as [Hcls _].
  destruct (Hcls t api) as [? ?]; [by apply elem_of_map_to_list | congruence].
Qed.

(** X11. The resolver removes no more than it must.  A converged part of
    the mapping stays in the result as long as the public members of its
    classes mention no key of the mapping outside that part. *)
Theorem resolver_keeps_self_contained_part :
  ∀ (type_class : DexType → option DexClass) (type_system : TypeSystem)
    (fuel : nat) (m m' result : gmap DexType FrameworkAPI),
    m' ⊆ m →
    converged type_class type_system m' →
    (∀ t api c u, m' !! t = Some api → type_class t = Some c →
       u ∈ public_member_types c → is_Some (m !! u) → is_Some (m' !! u)) →
    check_and_update_release_to_framework type_class type_system fuel m
      = Done result →
    m' ⊆ result.
Proof.
  intros tc ts fuel m m' result Hsub Hconv Hclosed
    (n & Hloop)%resolve_Done_iff.
  eapply resolver_loop_keeps; [|exact Hsub|exact Hloop].
  intros mid Hlow Hhigh t api Ht.
  pose proof (Hconv t api Ht) as Hpass. unfold pair_passes in *.
  destruct (tc t) as [c|] eqn:Hc; [|done].
  apply andb_true_iff in Hpass as [Hmem Hhier].
  apply andb_true_iff. split.
  - apply check_members_true.
    apply (members_compatible_agree c api (release_to_framework_of m'));
      [|by apply check_members_true].
    intros u Hu. unfold release_to_framework_of. rewrite !lookup_fmap.
    destruct (m' !! u) as [apiu|] eqn:Hm'u.
    + by rewrite (lookup_weaken _ _ _ _ Hm'u Hlow).
    + destruct (mid !! u) as [apiu|] eqn:Hmidu; [exfalso | done].
      destruct (Hclosed t api c u Ht Hc Hu) as [? ?]; [|congruence].
      exists apiu. by eapply lookup_weaken.
  - apply (check_hierarchy_more_keys tc ts c api api
             (release_to_framework_of m')); [|done].
    unfold release_to_framework_of. intros u. rewrite !lookup_fmap.
    intros [apiu Hu]%fmap_is_Some. apply fmap_is_Some. exists apiu.
    by eapply lookup_weaken.
Qed.

(** X12. Filtering identities that are not keys of a converged mapping
    changes nothing. *)
Theorem filter_types_of_absent_keys :
  ∀ (type_class : DexType → option DexClass) (type_system : TypeSystem)
    (fuel : nat) (types : gset string) (m : gmap DexType FrameworkAPI),
    converged type_class type_system m →
    (∀ t, t ∈ types → m !! t = None) →
    filter_types type_class type_system (S fuel) types m = Done m.
Proof.
  intros tc ts fuel types m Hconv Habsent. unfold filter_types.
  assert (erase_all (elements types) m = m) as ->.
  { apply map_eq. intros t. rewrite erase_all_lookup.
    case_decide as Hin; [|done].
    symmetry. by apply Habsent, elem_of_elements. }
  by apply resolve_converged.
Qed.

(** ** Candidate selection: what the index and the scan produce *)

Section SelectionMore.

Variable type_class : DexType → option DexClass.

Local Abbreviation simple := (get_simple_deobfuscated_name type_class).

Lemma is_release_class_true c :
  is_release_class c = true
  ↔ is_external c = false
    ∧ String.prefix "Landroidx" (get_deobfuscated_name c) = true.
Proof.
  unfold is_release_class. rewrite andb_true_iff, negb_true_iff. done.
Qed.

Lemma catalogue_keys_enumerated (cat : gmap DexType FrameworkAPI) k :
  k ∈ (map_to_list cat).*1 ↔ is_Some (cat !! k).
Proof.
  rewrite list_elem_of_fmap. split.
  - intros ([k' api] & -> & Hin%elem_of_map_to_list). by exists api.
  - intros [api Hk]. exists (k, api). by rewrite elem_of_map_to_list.
Qed.

Lemma load_scope_step_skip c scope idx names
    (cat m : gmap DexType FrameworkAPI) :
  is_release_class c = false →
  load_scope type_class (c :: scope) idx names cat m
  = load_scope type_class scope idx names cat m.
Proof.
  unfold is_release_class. simpl.
  destruct (is_external c); [done|]. simpl.
  by intros ->.
Qed.

Lemma load_scope_step_release c scope idx names
    (cat m : gmap DexType FrameworkAPI) :
  is_release_class c = true →
  load_scope type_class (c :: scope) idx names cat m
  = match simple (get_type c) with
    | None => None
    | Some s =>
        match idx !! s with
        | None => load_scope type_class scope idx names cat m
        | Some fw =>
            if decide (s ∈ names) then None
            else
              match cat !! fw with
              | Some api =>
                  load_scope type_class scope idx names
                    (<[fw := moved_from api]> cat) (<[get_type c := api]> m)
              | None => None
              end
        end
    end.
Proof.
  intros [Hext Hpre]%is_release_class_true. simpl. by rewrite Hext, Hpre.
Qed.





Lemma release_simple_names_elem scope c s :
  c ∈ scope → is_release_class c = true → simple (get_type c) = Some s →
  s ∈ release_simple_names type_class scope.
Proof.
  intros Hin Hrel Hs. unfold release_simple_names.
  apply list_elem_of_omap. exists c. split; [done|]. by rewrite Hrel.
Qed.

(** A key survives the rest of the scan untouched when no release class
    still to come has the same simple name. *)
Lemma load_scope_preserves scope idx names
    (cat m cat' m' : gmap DexType FrameworkAPI) R s :
  load_scope type_class scope idx names cat m = Some (cat', m') →
  simple R = Some s →
  s ∉ release_simple_names type_class scope →
  m' !! R = m !! R.
Proof.
  revert cat m. induction scope as [|c scope IH]; intros cat m.
  - by intros [= <- <-].
  - intros Hrun HR Hnot.
    unfold release_simple_names in Hnot. cbn [omap list_omap] in Hnot.
    destruct (is_release_class c) eqn:Hrel.
    + rewrite load_scope_step_release in Hrun by done.
      destruct (simple (get_type c)) as [s0|] eqn:Hs0; [|done].
      apply not_elem_of_cons in Hnot as [Hne Hrest].
      destruct (idx !! s0) as [fw|]; [|by eapply IH].
      case_decide; [done|].
      destruct (cat !! fw) as [api|]; [|done].
      rewrite (IH _ _ Hrun HR Hrest).
      apply lookup_insert_ne. intros Heq. rewrite Heq in Hs0. congruence.
    + rewrite load_scope_step_skip in Hrun by done. by eapply IH.
Qed.

(** With pairwise different simple names among the release classes, each
    of them receives the catalogue entry its simple name selects. *)
Lemma load_scope_exact scope idx names
    (cat m cat' m' : gmap DexType FrameworkAPI) c s fw :
  (∀ s1 s2 fw', idx !! s1 = Some fw' → idx !! s2 = Some fw' → s1 = s2) →
  NoDup (release_simple_names type_class scope) →
  load_scope type_class scope idx names cat m = Some (cat', m') →
  c ∈ scope → is_release_class c = true →
  simple (get_type c) = Some s → idx !! s = Some fw →
  is_Some (cat !! fw) ∧ m' !! get_type c = cat !! fw.
Proof.
  intros Hinj. revert cat m.
  induction scope as [|c0 scope IH]; intros cat m Hnd Hrun Hin;
    [by apply elem_of_nil in Hin|].
  intros Hrel Hs Hfw.
  unfold release_simple_names in Hnd. cbn [omap list_omap] in Hnd.
  destruct (is_release_class c0) eqn:Hrel0.
  - rewrite load_scope_step_release in Hrun by done.
    destruct (simple (get_type c0)) as [s0|] eqn:Hs0; [|done].
    apply NoDup_cons in Hnd as [Hfresh Hnd].
    apply elem_of_cons in Hin as [->|Hin].
    + assert (s0 = s) as -> by congruence.
      rewrite Hfw in Hrun. case_decide; [done|].
      destruct (cat !! fw) as [api|] eqn:Hapi; [|done].
      split; [done|].
      rewrite (load_scope_preserves _ _ _ _ _ _ _ _ _ Hrun Hs Hfresh).
      by rewrite lookup_insert_eq.
    + assert (s ≠ s0) as Hne.
      { intros ->. apply Hfresh. by eapply release_simple_names_elem. }
      destruct (idx !! s0) as [fw0|] eqn:Hfw0; [|by eapply IH].
      case_decide; [done|].
      destruct (cat !! fw0) as [api0|] eqn:Hapi0; [|done].
      assert (fw0 ≠ fw) as Hfwne by (intros ->; by apply Hne, (Hinj s s0 fw)).
      destruct (IH _ _ Hnd Hrun Hin Hrel Hs Hfw) as [Hsome Hexact].
      rewrite lookup_insert_ne in Hsome, Hexact by done. done.
  - rewrite load_scope_step_skip in Hrun by done.
    apply elem_of_cons in Hin as [->|Hin]; [congruence|].
    by eapply IH.
Qed.

End SelectionMore.

Lemma collect_simple_names_None type_class pairs filter idx :
  collect_simple_names type_class pairs filter idx = None →
  ∃ t, t ∈ pairs.*1 ∧ get_simple_deobfuscated_name type_class t = None.
Proof.
  revert filter idx. induction pairs as [|[t api] pairs IH];
    intros filter idx; simpl; [done|].
  destruct (get_simple_deobfuscated_name type_class t) as [s|] eqn:Hs.
  - intros Hrest.
    assert (∃ f i, collect_simple_names type_class pairs f i = None)
      as (f & i & Hfi) by (destruct (idx !! s); eauto).
    destruct (IH _ _ Hfi) as (t' & ? & ?).
    exists t'. split; [rewrite elem_of_cons; by right | done].
  - intros _. exists t. split; [rewrite elem_of_cons; by left | done].
Qed.

Lemma accepted_types_None type_class (cat : gmap DexType FrameworkAPI) pairs :
  pairs ≡ₚ map_to_list cat →
  simple_cls_name_to_accepted_types_of type_class pairs = None
  ↔ ∃ t, is_Some (cat !! t)
         ∧ get_simple_deobfuscated_name type_class t = None.
Proof.
  intros Hperm. split.
  - unfold simple_cls_name_to_accepted_types_of.
    destruct (collect_simple_names type_class pairs [] ∅) as [[??]|] eqn:Hc;
      [done|].
    intros _. apply collect_simple_names_None in Hc as (t & Hin & Hnone).
    exists t. split; [|done].
    apply catalogue_keys_enumerated. by rewrite <- Hperm.
  - intros (t & Ht & Hnone).
    destruct (simple_cls_name_to_accepted_types_of type_class pairs)
      as [index|] eqn:Hindex; [exfalso | done].
    assert (is_Some (simple_cls_name_to_accepted_types_of type_class pairs))
      as Hsome by (by rewrite Hindex).
    rewrite simple_index_is_Some in Hsome.
    destruct (Hsome t) as [? ?]; [|congruence].
    rewrite Hperm. by apply catalogue_keys_enumerated.
Qed.


(** X13. Whatever the order in which the catalogue is enumerated, the
    index holds a simple name exactly when a single catalogue class claims
    it, and maps the name to that class. *)
Theorem accepted_types_are_the_unique_claimants :
  ∀ (type_class : DexType → option DexClass)
    (framework_cls_to_api : gmap DexType FrameworkAPI)
    (pairs : list (DexType * FrameworkAPI)) (index : gmap string DexType),
    pairs ≡ₚ map_to_list framework_cls_to_api →
    simple_cls_name_to_accepted_types_of type_class pairs = Some index →
    ∀ s t,
      index !! s = Some t
      ↔ is_Some (framework_cls_to_api !! t)
        ∧ get_simple_deobfuscated_name type_class t = Some s
        ∧ ∀ t', is_Some (framework_cls_to_api !! t') →
                get_simple_deobfuscated_name type_class t' = Some s → t' = t.
Proof.
  intros tc cat pairs index Hperm Hindex.
  apply accepted_types_spec.
  unfold get_simple_cls_name_to_accepted_types. rewrite <- Hindex.
  symmetry. apply simple_index_order_irrelevant; [|done].
  rewrite Hperm. apply NoDup_fst_map_to_list.
Qed.

(** X14. Building the index fails exactly when some catalogue class has a
    name without a slash, whatever the enumeration order. *)
Theorem accepted_types_fail_iff_name_without_slash :
  ∀ (type_class : DexType → option DexClass)
    (framework_cls_to_api : gmap DexType FrameworkAPI)
    (pairs : list (DexType * FrameworkAPI)),
    pairs ≡ₚ map_to_list framework_cls_to_api →
    simple_cls_name_to_accepted_types_of type_class pairs = None
    ↔ ∃ t, is_Some (framework_cls_to_api !! t)
           ∧ "/"%char ∉ list_ascii_of_string (full_name_of type_class t).
Proof.
  intros tc cat pairs Hperm. rewrite (accepted_types_None tc cat) by done.
  split; intros (t & Ht & Hnone); exists t; (split; [done|]).
  - unfold get_simple_deobfuscated_name in Hnone.
    apply rfind_None. by destruct (rfind "/" (full_name_of tc t)).
  - apply rfind_None in Hnone. unfold get_simple_deobfuscated_name.
    by rewrite Hnone.
Qed.

(** X15. Every key of a freshly loaded mapping is the type of a class of
    the scope that is internal, carries the [Landroidx] prefix and has a
    simple name held by the index; external classes and classes outside
    the prefix are never mapped. *)
Theorem loaded_keys_are_release_classes :
  ∀ (type_class : DexType → option DexClass) (type_system : TypeSystem)
    (fuel : nat) (m_scope : list DexClass)
    (framework_cls_to_api m : gmap DexType FrameworkAPI) (R : DexType),
    load_types_to_framework_api type_class type_system fuel m_scope
      framework_cls_to_api ∅ = Done m →
    is_Some (m !! R) →
    ∃ c s index,
      c ∈ m_scope ∧ get_type c = R
      ∧ is_external c = false
      ∧ String.prefix "Landroidx" (get_deobfuscated_name c) = true
      ∧ get_simple_deobfuscated_name type_class R = Some s
      ∧ get_simple_cls_name_to_accepted_types type_class framework_cls_to_api
        = Some index
      ∧ is_Some (index !! s).
Proof.
  intros tc ts fuel scope cat m R. unfold load_types_to_framework_api.
  destruct (get_simple_cls_name_to_accepted_types tc cat) as [index|];
    [|done].
  destruct (load_scope tc scope index ∅ cat ∅) as [[cat' m0]|] eqn:Hload;
    [|done].
  intros [Hsub _]%resolve_Done [api HR].
  apply load_scope_pairs in Hload as [_ Hm0].
  destruct (Hm0 R api) as [Hempty|Hnew]; [by eapply lookup_weaken | |].
  - by apply lookup_empty_Some in Hempty.
  - destruct Hnew as (c & s & fw & ? & ? & ? & ? & ? & Hfw & _).
    exists c, s, index. split_and!; try done.
Qed.

(** X16. When the release classes of the scope have pairwise different
    simple names, as the code assumes, the scan pairs each of them that the
    index knows with the very catalogue entry its simple name selects. *)
Theorem release_classes_receive_their_catalogue_entry :
  ∀ (type_class : DexType → option DexClass) (m_scope : list DexClass)
    (framework_cls_to_api m0 cat' m : gmap DexType FrameworkAPI)
    (index : gmap string DexType) (c : DexClass) (s : string) (fw : DexType),
    get_simple_cls_name_to_accepted_types type_class framework_cls_to_api
      = Some index →
    NoDup (release_simple_names type_class m_scope) →
    load_scope type_class m_scope index ∅ framework_cls_to_api m0
      = Some (cat', m) →
    c ∈ m_scope →
    is_release_class c = true →
    get_simple_deobfuscated_name type_class (get_type c) = Some s →
    index !! s = Some fw →
    ∃ api, framework_cls_to_api !! fw = Some api
           ∧ m !! get_type c = Some api.
Proof.
  intros tc scope cat m0 cat' m index c s fw Hindex Hnd Hload Hin Hrel Hs Hfw.
  pose proof (accepted_types_spec tc cat index Hindex) as Hspec.
  assert (∀ s1 s2 fw', index !! s1 = Some fw' → index !! s2 = Some fw' →
                       s1 = s2) as Hinj.
  { intros s1 s2 fw' (_ & H1 & _)%Hspec (_ & H2 & _)%Hspec. congruence. }
  destruct (load_scope_exact tc scope index ∅ cat m0 cat' m c s fw
              Hinj Hnd Hload Hin Hrel Hs Hfw) as [[api Hapi] Hexact].
  exists api. split; [done | congruence].
Qed.


(** ** The further properties on the example program *)

Lemma member_check_monotone_in_descriptor_witness :
  (∀ sig, sig ∈ method_signatures Example.fw_base_api →
          sig ∈ method_signatures Example.fw_base_api_rich)
  ∧ (∀ sig, sig ∈ field_signatures Example.fw_base_api →
            sig ∈ field_signatures Example.fw_base_api_rich)
  ∧ check_members Example.base_cls Example.fw_base_api ∅ = true
  ∧ check_members Example.base_cls Example.fw_base_api_rich ∅ = true.
Proof.
  assert (∀ sig, sig ∈ method_signatures Example.fw_base_api →
                 sig ∈ method_signatures Example.fw_base_api_rich) as Hm.
  { intros sig [->|[]%elem_of_nil]%elem_of_cons.
    unfold method_signatures. simpl. rewrite !elem_of_cons. auto. }
  assert (∀ sig, sig ∈ field_signatures Example.fw_base_api →
                 sig ∈ field_signatures Example.fw_base_api_rich) as Hf
    by (by intros sig ?%elem_of_nil).
  split; [exact Hm|]. split; [exact Hf|]. split; [reflexivity|].
  exact (member_check_monotone_in_descriptor Example.base_cls
           Example.fw_base_api Example.fw_base_api_rich ∅ Hm Hf eq_refl).
Defined.

Lemma member_check_reads_index_at_mentioned_types_witness :
  (∀ t, t ∈ public_member_types Example.child_cls →
        release_to_framework_of Example.mapping !! t
        = Example.wider_index !! t)
  ∧ check_members Example.child_cls Example.fw_child_api
      (release_to_framework_of Example.mapping)
    = check_members Example.child_cls Example.fw_child_api
        Example.wider_index.
Proof.
  assert (∀ t, t ∈ public_member_types Example.child_cls →
               release_to_framework_of Example.mapping !! t
               = Example.wider_index !! t) as Hagree.
  { assert (public_member_types Example.child_cls
            = ["V"; Example.Rel_Base; Example.Rel_Base]) as ->
      by (vm_compute; reflexivity).
    intros t Ht. rewrite !elem_of_cons in Ht.
    destruct Ht as [->|[->|[->|[]%elem_of_nil]]]; vm_compute; reflexivity. }
  split; [exact Hagree|].
  exact (member_check_reads_index_at_mentioned_types Example.child_cls
           Example.fw_child_api (release_to_framework_of Example.mapping)
           Example.wider_index Hagree).
Defined.

Lemma hierarchy_check_monotone_in_keys_witness :
  dom ({[Example.Rel_Base := Example.Fw_Base]} : gmap DexType DexType)
    ⊆ dom (release_to_framework_of Example.mapping)
  ∧ check_hierarchy (Example.class_table Example.scope) Example.type_system
      Example.child_cls Example.fw_child_api
      {[Example.Rel_Base := Example.Fw_Base]} = true
  ∧ check_hierarchy (Example.class_table Example.scope) Example.type_system
      Example.child_cls Example.fw_twin_api
      (release_to_framework_of Example.mapping) = true.
Proof.
  assert (dom ({[Example.Rel_Base := Example.Fw_Base]} : gmap DexType DexType)
            ⊆ dom (release_to_framework_of Example.mapping)) as Hdom.
  { apply (bool_decide_unpack _). vm_compute. exact I. }
  split; [exact Hdom|]. split; [reflexivity|].
  exact (hierarchy_check_monotone_in_keys
           (Example.class_table Example.scope) Example.type_system
           Example.child_cls Example.fw_child_api Example.fw_twin_api
           {[Example.Rel_Base := Example.Fw_Base]}
           (release_to_framework_of Example.mapping) Hdom eq_refl).
Defined.

Lemma converged_superclass_chain_witness :
  converged (Example.class_table Example.scope) Example.type_system
    Example.mapping
  ∧ is_Some (Example.mapping !! Example.Rel_Child)
  ∧ nth_superclass (Example.class_table Example.scope) 1 Example.Rel_Child
    = Some Example.Rel_Base
  ∧ is_Some (Example.mapping !! Example.Rel_Base).
Proof.
  assert (is_Some (Example.mapping !! Example.Rel_Child)) as Hkey
    by (vm_compute; eauto).
  split; [exact example_mapping_converged|]. split; [exact Hkey|].
  split; [reflexivity|].
  exact (converged_superclass_chain (Example.class_table Example.scope)
           Example.type_system Example.mapping 1 Example.Rel_Child
           Example.Rel_Base example_mapping_converged Hkey eq_refl).
Defined.

Lemma pass_judges_against_snapshot_witness :
  map_to_list Example.child_only ≡ₚ map_to_list Example.child_only
  ∧ collect_to_remove (Example.class_table Example.scope) Example.type_system
      (map_to_list Example.child_only)
      (release_to_framework_of Example.child_only) ∅
    = Some {[Example.Rel_Child]}
  ∧ ∀ t api,
      erase_all (elements ({[Example.Rel_Child]} : gset string))
        Example.child_only !! t = Some api
      ↔ Example.child_only !! t = Some api
        ∧ pair_passes (Example.class_table Example.scope) Example.type_system
            (release_to_framework_of Example.child_only) t api = true.
Proof.
  assert (collect_to_remove (Example.class_table Example.scope)
            Example.type_system (map_to_list Example.child_only)
            (release_to_framework_of Example.child_only) ∅
          = Some {[Example.Rel_Child]}) as Hscan by (vm_compute; reflexivity).
  split; [reflexivity|]. split; [exact Hscan|].
  exact (pass_judges_against_snapshot (Example.class_table Example.scope)
           Example.type_system Example.child_only
           (map_to_list Example.child_only) {[Example.Rel_Child]}
           (reflexivity _) Hscan).
Defined.

Lemma resolver_keeps_self_contained_part_witness :
  Example.helper_only ⊆ Example.mixed_mapping
  ∧ converged (Example.class_table Example.scope) Example.type_system
      Example.helper_only
  ∧ (∀ t api c u, Example.helper_only !! t = Some api →
       Example.class_table Example.scope t = Some c →
       u ∈ public_member_types c →
       is_Some (Example.mixed_mapping !! u) →
       is_Some (Example.helper_only !! u))
  ∧ check_and_update_release_to_framework
      (Example.class_table Example.scope) Example.type_system 3
      Example.mixed_mapping = Done Example.helper_only
  ∧ Example.helper_only ⊆ Example.helper_only.
Proof.
  assert (Example.helper_only ⊆ Example.mixed_mapping) as Hsub
    by (apply insert_subseteq; vm_compute; reflexivity).
  assert (converged (Example.class_table Example.scope) Example.type_system
            Example.helper_only) as Hconv
    by (apply scan_empty_iff_converged; vm_compute; reflexivity).
  assert (∀ t api c u, Example.helper_only !! t = Some api →
            Example.class_table Example.scope t = Some c →
            u ∈ public_member_types c →
            is_Some (Example.mixed_mapping !! u) →
            is_Some (Example.helper_only !! u)) as Hclosed.
  { intros t api c u. unfold Example.helper_only.
    intros [[<- <-] | [_ []%lookup_empty_Some]]%lookup_insert_Some.
    intros [= <-]. by intros ?%elem_of_nil. }
  assert (check_and_update_release_to_framework
            (Example.class_table Example.scope) Example.type_system 3
            Example.mixed_mapping = Done Example.helper_only) as Hrun
    by (vm_compute; reflexivity).
  split; [exact Hsub|]. split; [exact Hconv|]. split; [exact Hclosed|].
  split; [exact Hrun|].
  exact (resolver_keeps_self_contained_part
           (Example.class_table Example.scope) Example.type_system 3
           Example.mixed_mapping Example.helper_only Example.helper_only
           Hsub Hconv Hclosed Hrun).
Defined.

Lemma filter_types_of_absent_keys_witness :
  converged (Example.class_table Example.scope) Example.type_system
    Example.mapping
  ∧ (∀ t, t ∈ ({[Example.Ghost]} : gset string) → Example.mapping !! t = None)
  ∧ filter_types (Example.class_table Example.scope) Example.type_system 1
      {[Example.Ghost]} Example.mapping = Done Example.mapping.
Proof.
  assert (∀ t, t ∈ ({[Example.Ghost]} : gset string) →
               Example.mapping !! t = None) as Habsent
    by (intros t ->%elem_of_singleton; vm_compute; reflexivity).
  split; [exact example_mapping_converged|]. split; [exact Habsent|].
  exact (filter_types_of_absent_keys (Example.class_table Example.scope)
           Example.type_system 0 {[Example.Ghost]} Example.mapping
           example_mapping_converged Habsent).
Defined.

Lemma accepted_types_are_the_unique_claimants_witness :
  map_to_list Example.ambiguous_catalogue
    ≡ₚ map_to_list Example.ambiguous_catalogue
  ∧ simple_cls_name_to_accepted_types_of (Example.class_table Example.scope)
      (map_to_list Example.ambiguous_catalogue)
    = Some {["Child" := Example.Fw_Child]}
  ∧ ∀ s t,
      ({["Child" := Example.Fw_Child]} : gmap string DexType) !! s = Some t
      ↔ is_Some (Example.ambiguous_catalogue !! t)
        ∧ get_simple_deobfuscated_name (Example.class_table Example.scope) t
          = Some s
        ∧ ∀ t', is_Some (Example.ambiguous_catalogue !! t') →
                get_simple_deobfuscated_name
                  (Example.class_table Example.scope) t' = Some s →
                t' = t.
Proof.
  assert (simple_cls_name_to_accepted_types_of
            (Example.class_table Example.scope)
            (map_to_list Example.ambiguous_catalogue)
          = Some {["Child" := Example.Fw_Child]}) as Hindex
    by (vm_compute; reflexivity).
  split; [reflexivity|]. split; [exact Hindex|].
  exact (accepted_types_are_the_unique_claimants
           (Example.class_table Example.scope) Example.ambiguous_catalogue
           (map_to_list Example.ambiguous_catalogue)
           {["Child" := Example.Fw_Child]} (reflexivity _) Hindex).
Defined.

Lemma accepted_types_fail_iff_name_without_slash_witness :
  map_to_list (<["I" := Example.fw_twin_api]> Example.catalogue)
    ≡ₚ map_to_list (<["I" := Example.fw_twin_api]> Example.catalogue)
  ∧ (simple_cls_name_to_accepted_types_of (Example.class_table Example.scope)
       (map_to_list (<["I" := Example.fw_twin_api]> Example.catalogue))
     = None
     ↔ ∃ t, is_Some (<["I" := Example.fw_twin_api]> Example.catalogue !! t)
            ∧ "/"%char
              ∉ list_ascii_of_string
                  (full_name_of (Example.class_table Example.scope) t)).
Proof.
  split; [reflexivity|].
  exact (accepted_types_fail_iff_name_without_slash
           (Example.class_table Example.scope)
           (<["I" := Example.fw_twin_api]> Example.catalogue)
           (map_to_list (<["I" := Example.fw_twin_api]> Example.catalogue))
           (reflexivity _)).
Defined.

Lemma loaded_keys_are_release_classes_witness :
  load_types_to_framework_api (Example.class_table Example.scope)
    Example.type_system 3 Example.scope Example.catalogue ∅
  = Done Example.mapping
  ∧ is_Some (Example.mapping !! Example.Rel_Child)
  ∧ ∃ c s index,
      c ∈ Example.scope ∧ get_type c = Example.Rel_Child
      ∧ is_external c = false
      ∧ String.prefix "Landroidx" (get_deobfuscated_name c) = true
      ∧ get_simple_deobfuscated_name (Example.class_table Example.scope)
          Example.Rel_Child = Some s
      ∧ get_simple_cls_name_to_accepted_types
          (Example.class_table Example.scope) Example.catalogue = Some index
      ∧ is_Some (index !! s).
Proof.
  assert (load_types_to_framework_api (Example.class_table Example.scope)
            Example.type_system 3 Example.scope Example.catalogue ∅
          = Done Example.mapping) as Hload by (vm_compute; reflexivity).
  assert (is_Some (Example.mapping !! Example.Rel_Child)) as Hkey
    by (vm_compute; eauto).
  split; [exact Hload|]. split; [exact Hkey|].
  exact (loaded_keys_are_release_classes (Example.class_table Example.scope)
           Example.type_system 3 Example.scope Example.catalogue
           Example.mapping Example.Rel_Child Hload Hkey).
Defined.

Lemma release_classes_receive_their_catalogue_entry_witness :
  get_simple_cls_name_to_accepted_types (Example.class_table Example.scope)
    Example.catalogue
  = Some (<["Base" := Example.Fw_Base]> {["Child" := Example.Fw_Child]})
  ∧ NoDup (release_simple_names (Example.class_table Example.scope)
             Example.scope)
  ∧ load_scope (Example.class_table Example.scope) Example.scope
      (<["Base" := Example.Fw_Base]> {["Child" := Example.Fw_Child]}) ∅
      Example.catalogue ∅
    = Some (Example.emptied_catalogue, Example.mapping)
  ∧ Example.child_cls ∈ Example.scope
  ∧ is_release_class Example.child_cls = true
  ∧ get_simple_deobfuscated_name (Example.class_table Example.scope)
      (get_type Example.child_cls) = Some "Child"
  ∧ (<["Base" := Example.Fw_Base]> {["Child" := Example.Fw_Child]}
       : gmap string DexType) !! "Child" = Some Example.Fw_Child
  ∧ ∃ api, Example.catalogue !! Example.Fw_Child = Some api
           ∧ Example.mapping !! get_type Example.child_cls = Some api.
Proof.
  assert (get_simple_cls_name_to_accepted_types
            (Example.class_table Example.scope) Example.catalogue
          = Some (<["Base" := Example.Fw_Base]>
                    {["Child" := Example.Fw_Child]})) as Hindex
    by (vm_compute; reflexivity).
  assert (NoDup (release_simple_names (Example.class_table Example.scope)
                   Example.scope)) as Hnd
    by (apply (bool_decide_unpack _); vm_compute; exact I).
  assert (load_scope (Example.class_table Example.scope) Example.scope
            (<["Base" := Example.Fw_Base]> {["Child" := Example.Fw_Child]}) ∅
            Example.catalogue ∅
          = Some (Example.emptied_catalogue, Example.mapping)) as Hload
    by (vm_compute; reflexivity).
  assert (Example.child_cls ∈ Example.scope) as Hin
    by (unfold Example.scope; rewrite !elem_of_cons; auto).
  assert ((<["Base" := Example.Fw_Base]> {["Child" := Example.Fw_Child]}
             : gmap string DexType) !! "Child" = Some Example.Fw_Child)
    as Hhit by (vm_compute; reflexivity).
  split; [exact Hindex|]. split; [exact Hnd|]. split; [exact Hload|].
  split; [exact Hin|]. split; [reflexivity|]. split; [reflexivity|].
  split; [exact Hhit|].
  exact (release_classes_receive_their_catalogue_entry
           (Example.class_table Example.scope) Example.scope
           Example.catalogue ∅ Example.emptied_catalogue Example.mapping
           (<["Base" := Example.Fw_Base]> {["Child" := Example.Fw_Child]})
           Example.child_cls "Child" Example.Fw_Child
           Hindex Hnd Hload Hin eq_refl eq_refl Hhit).
Defined.

(** ** Filtering: what is removed and what is kept *)

Lemma erase_all_elements_filter (types : gset string)
    (m : gmap DexType FrameworkAPI) :
  erase_all (elements types) m = filter (λ kv, kv.1 ∉ types) m.
Proof.
  apply map_eq. intros t. apply option_eq. intros api.
  rewrite erase_all_lookup, map_lookup_filter_Some. simpl.
  case_decide as Hin; rewrite elem_of_elements in Hin.
  - split; [done | by intros [_ ?]].
  - split; [by intros ? | by intros [? _]].
Qed.

Lemma resolve_keeps_part type_class type_system fuel
    (m part result : gmap DexType FrameworkAPI) :
  part ⊆ m →
  converged type_class type_system part →
  (∀ t api c u, part !! t = Some api → type_class t = Some c →
     u ∈ public_member_types c → is_Some (m !! u) → is_Some (part !! u)) →
  check_and_update_release_to_framework type_class type_system fuel m
    = Done result →
  part ⊆ result.
Proof.
  intros Hsub Hconv Hclosed (n & Hloop)%resolve_Done_iff.
  eapply resolver_loop_keeps; [|exact Hsub|exact Hloop].
  intros mid Hlow Hhigh t api Ht.
  pose proof (Hconv t api Ht) as Hpass. unfold pair_passes in *.
  destruct (type_class t) as [c|] eqn:Hc; [|done].
  apply andb_true_iff in Hpass as [Hmem Hhier].
  apply andb_true_iff. split.
  - apply check_members_true.
    apply (members_compatible_agree c api (release_to_framework_of part));
      [|by apply check_members_true].
    intros u Hu. unfold release_to_framework_of. rewrite !lookup_fmap.
    destruct (part !! u) as [apiu|] eqn:Hpu.
    + by rewrite (lookup_weaken _ _ _ _ Hpu Hlow).
    + destruct (mid !! u) as [apiu|] eqn:Hmidu; [exfalso | done].
      destruct (Hclosed t api c u Ht Hc Hu) as [? ?]; [|congruence].
      exists apiu. by eapply lookup_weaken.
  - apply (check_hierarchy_more_keys type_class type_system c api api
             (release_to_framework_of part)); [|done].
    unfold release_to_framework_of. intros u. rewrite !lookup_fmap.
    intros [apiu Hu]%fmap_is_Some. apply fmap_is_Some. exists apiu.
    by eapply lookup_weaken.
Qed.

(** C8. [filter_types] always returns with [size m + 1] unrollings, and
    what it returns is what the resolver returns on the mapping without the
    entries whose key is among the supplied identities.  So, when it
    returns: no supplied identity is a key any more and the mapping is a
    fixed point again; a pair [A] whose hierarchy check fails on every index
    lacking [B] is gone as soon as [B] is among the filtered identities;
    every converged part of the mapping that holds none of the identities,
    and whose public members mention no other remaining key, is kept; and
    if what remains after the erasure is converged already, exactly that is
    returned. *)
Theorem filter_types_removes_and_cascades :
  ∀ (type_class : DexType → option DexClass) (type_system : TypeSystem)
    (types : gset string) (m : gmap DexType FrameworkAPI),
    filter_types type_class type_system (S (size m)) types m ≠ OutOfFuel
    ∧ (∀ fuel,
         filter_types type_class type_system fuel types m
         = check_and_update_release_to_framework type_class type_system fuel
             (filter (λ kv, kv.1 ∉ types) m))
    ∧ ∀ fuel m',
        filter_types type_class type_system fuel types m = Done m' →
        (∀ t, t ∈ types → m' !! t = None)
        ∧ m' ⊆ m
        ∧ converged type_class type_system m'
        ∧ (∀ A B,
             B ∈ types →
             (∀ c api rtf, type_class A = Some c → rtf !! B = None →
                check_hierarchy type_class type_system c api rtf = false) →
             m' !! A = None)
        ∧ (∀ part : gmap DexType FrameworkAPI,
             part ⊆ m →
             (∀ t, t ∈ types → part !! t = None) →
             converged type_class type_system part →
             (∀ t api c u, part !! t = Some api → type_class t = Some c →
                u ∈ public_member_types c →
                is_Some (filter (λ kv, kv.1 ∉ types) m !! u) →
                is_Some (part !! u)) →
             part ⊆ m')
        ∧ (converged type_class type_system
             (filter (λ kv, kv.1 ∉ types) m) →
           m' = filter (λ kv, kv.1 ∉ types) m).
Proof.
  intros tc ts types m. split; [apply filter_types_enough_fuel; lia|].
  assert (∀ fuel,
            filter_types tc ts fuel types m
            = check_and_update_release_to_framework tc ts fuel
                (filter (λ kv, kv.1 ∉ types) m)) as Hfilter
    by (intros fuel; unfold filter_types;
        by rewrite erase_all_elements_filter).
  split; [exact Hfilter|].
  intros fuel m' Hrun.
  pose proof Hrun as (Hsub & Hconv & Hgone)%filter_types_Done.
  split; [done|]. split; [done|]. split; [done|]. split; [|split].
  - intros A B HB Hneeds.
    destruct (m' !! A) as [api|] eqn:HA; [exfalso | done].
    specialize (Hconv A api HA). unfold pair_passes in Hconv.
    destruct (tc A) as [c|] eqn:Hc; [|done].
    apply andb_true_iff in Hconv as [_ Hhier].
    rewrite (Hneeds c api (release_to_framework_of m') eq_refl) in Hhier;
      [done|].
    by apply release_to_framework_of_None, Hgone.
  - intros part Hpart Hnone Hpconv Hclosed.
    rewrite Hfilter in Hrun.
    eapply resolve_keeps_part; [|exact Hpconv|exact Hclosed|exact Hrun].
    apply map_subseteq_spec. intros t api Ht.
    apply map_lookup_filter_Some. split; [by eapply lookup_weaken|].
    simpl. intros Hin. rewrite (Hnone t Hin) in Ht. done.
  - intros Hrest. rewrite Hfilter in Hrun.
    destruct fuel as [|fuel]; [done|].
    rewrite (resolve_converged tc ts fuel _ Hrest) in Hrun. congruence.
Qed.

(** C8, on the example: [Child] extends [Base] and [Helper] stands alone,
    so filtering out [Base] takes [Child] with it and keeps [Helper]. *)
Lemma filter_types_removes_and_cascades_witness :
  Example.full_mapping !! Example.Rel_Child = Some Example.fw_child_api
  ∧ filter_types (Example.class_table Example.scope) Example.type_system 4
      {[Example.Rel_Base]} Example.full_mapping = Done Example.helper_only
  ∧ Example.helper_only !! Example.Rel_Base = None
  ∧ Example.helper_only !! Example.Rel_Child = None
  ∧ Example.helper_only !! Example.Rel_Helper = Some Example.fw_twin_api.
Proof.
  assert (filter_types (Example.class_table Example.scope)
            Example.type_system 4 {[Example.Rel_Base]} Example.full_mapping
          = Done Example.helper_only) as Hrun by (vm_compute; reflexivity).
  split; [vm_compute; reflexivity|]. split; [exact Hrun|].
  destruct (proj2 (proj2 (filter_types_removes_and_cascades
                            (Example.class_table Example.scope)
                            Example.type_system
                            {[Example.Rel_Base]} Example.full_mapping))
              4 Example.helper_only Hrun)
    as (Hgone & _ & _ & Hcascade & Hkept & _).
  split; [apply Hgone; by apply elem_of_singleton|]. split.
  - apply (Hcascade Example.Rel_Child Example.Rel_Base).
    + by apply elem_of_singleton.
    + intros c api rtf [= <-] Hrtf. unfold check_hierarchy. simpl.
      rewrite Hrtf. reflexivity.
  - assert (Example.helper_only ⊆ Example.helper_only) as Hpart.
    { apply Hkept.
      + apply map_subseteq_spec. intros t api.
        unfold Example.helper_only.
        intros [[<- <-] | [_ []%lookup_empty_Some]]%lookup_insert_Some.
        vm_compute. reflexivity.
      + intros t ->%elem_of_singleton. vm_compute. reflexivity.
      + apply scan_empty_iff_converged. vm_compute. reflexivity.
      + intros t api c u. unfold Example.helper_only.
        intros [[<- <-] | [_ []%lookup_empty_Some]]%lookup_insert_Some.
        intros [= <-]. intros Hu. exfalso. revert Hu. apply not_elem_of_nil. }
    eapply lookup_weaken; [|exact Hpart]. vm_compute. reflexivity.
Defined.

